(** * webp-converter: the policy layer of [convert.py]

    A shallow embedding of the file-discovery, output-path and batch-driver
    code of [convert.py], together with the properties its specification
    states about it.

    Conventions of the model.

    - A [pathlib.Path] is the list of its name components below one fixed
      anchor (the root directory, or the working directory for relative
      paths); the empty list is the anchor itself, whose [name] is the
      empty string.  Components [..] and symbolic links are not modelled.
    - A Python [str] is a byte string (its UTF-8 encoding).  [lower] and
      [upper] change the ASCII letters only; no character outside ASCII
      lower-cases to a letter used by a supported extension, so membership
      of [suffix.lower()] in [SUPPORTED_FORMATS] is the same.
    - [Path.glob] compares names case-sensitively, as it does on POSIX
      systems.
    - The file system is a finite map from paths to nodes.  Modification
      times are integers (the order of the [st_mtime] floats is all the
      code uses); permissions are not modelled.
    - The image libraries (Pillow, CairoSVG) are an interface,
      [Collaborators], whose operations can fail.
    - Console output is not modelled, except for the per-file message that
      [process_file] returns and the counters of the final summary. *)

From stdpp Require Import gmap strings list sorting.
From Stdlib Require Import Ascii ZArith QArith DecimalString.

#[local] Open Scope Z_scope.

(** ** Strings *)

Module Str.

Definition lower_char (c : ascii) : ascii :=
  let n := N_of_ascii c in
  if ((65 <=? n) && (n <=? 90))%N then ascii_of_N (n + 32) else c.

Definition upper_char (c : ascii) : ascii :=
  let n := N_of_ascii c in
  if ((97 <=? n) && (n <=? 122))%N then ascii_of_N (n - 32) else c.

Fixpoint map (f : ascii → ascii) (s : string) : string :=
  match s with
  | EmptyString => EmptyString
  | String c s' => String (f c) (map f s')
  end.

(** [s.lower()] and [s.upper()] *)
Definition lower : string → string := map lower_char.
Definition upper : string → string := map upper_char.

Definition len (s : string) : Z := Z.of_nat (String.length s).

(** [s.rfind(c)]: the index of the last occurrence, or [-1]. *)
Fixpoint rfind (c : ascii) (s : string) : Z :=
  match s with
  | EmptyString => -1
  | String a s' =>
      let i := rfind c s' in
      if 0 <=? i then i + 1
      else if Ascii.eqb a c then 0 else -1
  end.

(** [s[i:]] and [s[:i]] for [0 <= i]. *)
Fixpoint drop (n : nat) (s : string) : string :=
  match n, s with
  | O, _ => s
  | S n', String _ s' => drop n' s'
  | S _, EmptyString => EmptyString
  end.

Fixpoint take (n : nat) (s : string) : string :=
  match n, s with
  | O, _ => EmptyString
  | S n', String a s' => String a (take n' s')
  | S _, EmptyString => EmptyString
  end.

(** [s.endswith(e)] *)
Fixpoint ends_with (s e : string) : bool :=
  String.eqb s e ||
  match s with
  | EmptyString => false
  | String _ s' => ends_with s' e
  end.

Definition is_empty (s : string) : bool :=
  match s with EmptyString => true | _ => false end.

(** An extension as the program lists them: a dot, then at least one
    character, none of them a dot. *)
Definition extension_shape (e : string) : bool :=
  match e with
  | String "." r => negb (is_empty r) && (rfind "." r <? 0)
  | _ => false
  end.

End Str.

(** ** Pure paths *)

Abbreviation path := (list string).

Module PurePath.

(** [p.name]: the final component, the empty string for the anchor. *)
Definition name (p : path) : string := List.last p EmptyString.

(** [p.parent] *)
Definition parent (p : path) : path := List.removelast p.

(** [p.suffix]:
<<
    name = self.name
    i = name.rfind('.')
    if 0 < i < len(name) - 1: return name[i:]
    else: return ''
>> *)
Definition suffix (p : path) : string :=
  let name := name p in
  let i := Str.rfind "."%char name in
  if (0 <? i) && (i <? Str.len name - 1) then Str.drop (Z.to_nat i) name
  else EmptyString.

(** [p.stem] *)
Definition stem (p : path) : string :=
  let name := name p in
  let i := Str.rfind "."%char name in
  if (0 <? i) && (i <? Str.len name - 1) then Str.take (Z.to_nat i) name
  else name.

(** [p / q] for a relative [q], and [p / s] for a single name [s]. *)
Definition join (p q : path) : path := p ++ q.
Definition join_name (p : path) (s : string) : path := p ++ [s].

(** The components of [p] below [base], when [base] is an ancestor of
    [p] or [p] itself. *)
Fixpoint strip_prefix (base p : path) : option path :=
  match base, p with
  | [], _ => Some p
  | b :: base', c :: p' =>
      if String.eqb b c then strip_prefix base' p' else None
  | _ :: _, [] => None
  end.

End PurePath.

(** ** Exceptions and outcomes *)

Inductive exn :=
  | ValueError
  | FileNotFoundError
  | FileExistsError
  | NotADirectoryError
  | IsADirectoryError
  | ZeroDivisionError
  | LibraryError (what : string).

Inductive outcome (A : Type) :=
  | Ok (a : A)
  | Raise (e : exn).
Arguments Ok {A} a.
Arguments Raise {A} e.

(** ** The file system *)

Record stat_result := { st_mtime : Z; st_size : Z }.

Inductive node :=
  | File (st : stat_result)
  | Dir (st : stat_result).

Definition node_stat (n : node) : stat_result :=
  match n with File st | Dir st => st end.

Abbreviation filesystem := (gmap path node).

(** Code that reads and changes the file system and may raise: the state
    is kept when an exception is raised, since what was written before
    stays written. *)
Definition io (A : Type) : Type := filesystem → outcome A * filesystem.

Definition io_ret {A} (a : A) : io A := fun fs => (Ok a, fs).

Definition io_bind {A B} (m : io A) (k : A → io B) : io B :=
  fun fs =>
    match m fs with
    | (Ok a, fs') => k a fs'
    | (Raise e, fs') => (Raise e, fs')
    end.

(** [try: m except Exception as e: h e] *)
Definition io_try {A} (m : io A) (h : exn → io A) : io A :=
  fun fs =>
    match m fs with
    | (Ok a, fs') => (Ok a, fs')
    | (Raise e, fs') => h e fs'
    end.

(** A read that does not change the file system. *)
Definition io_read {A} (f : filesystem → outcome A) : io A :=
  fun fs => (f fs, fs).

Declare Scope io_scope.
Delimit Scope io_scope with io.
Notation "x <- m ;; k" := (io_bind m (fun x => k))
  (at level 100, m at next level, right associativity) : io_scope.
Notation "m ;;; k" := (io_bind m (fun _ => k))
  (at level 100, right associativity) : io_scope.

Module FS.

Definition mem (p : path) (fs : filesystem) : bool :=
  match fs !! p with Some _ => true | None => false end.

(** [p.exists()] *)
Definition exists_ (p : path) : io bool :=
  io_read (fun fs => Ok (mem p fs)).

Definition is_file (p : path) (fs : filesystem) : bool :=
  match fs !! p with Some (File _) => true | _ => false end.

Definition is_dir (p : path) (fs : filesystem) : bool :=
  match fs !! p with Some (Dir _) => true | _ => false end.

(** [p.stat()] *)
Definition stat (p : path) : io stat_result :=
  io_read (fun fs =>
    match fs !! p with
    | Some n => Ok (node_stat n)
    | None => Raise FileNotFoundError
    end).

(** [p.unlink()] *)
Definition unlink (p : path) : io unit :=
  fun fs =>
    match fs !! p with
    | Some (File _) => (Ok tt, delete p fs)
    | Some (Dir _) => (Raise IsADirectoryError, fs)
    | None => (Raise FileNotFoundError, fs)
    end.

(** Every entry other than the anchor lies in a directory. *)
Definition well_formed (fs : filesystem) : Prop :=
  ∀ p n, fs !! p = Some n → p ≠ [] → is_dir (PurePath.parent p) fs = true.

End FS.

(** ** The image libraries *)

(** What the program takes from its environment: whether CairoSVG could be
    imported ([SVG_SUPPORT]), Pillow's [Image.open], [Image.convert] and
    [Image.save], and [cairosvg.svg2png].  Opening, rasterising and
    converting read the file system; saving writes.  The laws say that
    [Image.save] changes nothing but the path it is given and that, when it
    returns, that path holds a file.  What it leaves there when it raises is
    not constrained. *)
Class Collaborators := {
  SVG_SUPPORT : bool;
  image : Type;
  png_data : Type;
  Image_open : path → filesystem → outcome image;
  Image_open_bytes : png_data → outcome image;
  svg2png : path → Q → filesystem → outcome png_data;
  image_mode : image → string;
  image_has_transparency : image → bool;
  image_convert : image → string → outcome image;
  Image_save : image → path → Z → io unit;
  (** the [stat] of a directory that [mkdir] has just created *)
  new_dir_stat : stat_result;
  Image_save_frame : ∀ img out quality fs q,
    q ≠ out → (Image_save img out quality fs).2 !! q = fs !! q;
  Image_save_file : ∀ img out quality fs,
    (Image_save img out quality fs).1 = Ok tt →
    FS.is_file out (Image_save img out quality fs).2 = true
}.

Module FSOps.
Section with_collaborators.
Context `{Collaborators}.

(** One step of [mkdir(parents=True, exist_ok=True)]: the directory [q]
    is there, is created, or a file is in the way.  [last] says whether
    [q] is the directory asked for or one of its ancestors. *)
Definition ensure_dir (last : bool) (q : path) : io unit :=
  fun fs =>
    match fs !! q with
    | Some (Dir _) => (Ok tt, fs)
    | Some (File _) =>
        (Raise (if last then FileExistsError else NotADirectoryError), fs)
    | None => (Ok tt, <[q := Dir new_dir_stat]> fs)
    end.

Fixpoint mkdir_from (done : path) (todo : list string) : io unit :=
  match todo with
  | [] => ensure_dir true done
  | c :: todo' =>
      (ensure_dir false done;;;
       mkdir_from (done ++ [c]) todo')%io
  end.

(** [p.mkdir(parents=True, exist_ok=True)] *)
Definition mkdir (p : path) : io unit := mkdir_from [] p.

(** [fs'] is [fs] with, at most, new directories at [target] and
    above it: what [mkdir] is allowed to do. *)
Definition only_adds_dirs (target : path) (fs fs' : filesystem) : Prop :=
  ∀ q, fs' !! q = fs !! q
       ∨ fs !! q = None ∧ fs' !! q = Some (Dir new_dir_stat)
         ∧ q `prefix_of` target.

End with_collaborators.
End FSOps.

(** ** The program *)

Section convert.
Context `{Collaborators}.

(** [SUPPORTED_FORMATS]; a Python set, listed here in the order of the
    source.  The one loop over it feeds [sorted(set(...))], so the order
    is not observable. *)
Definition SUPPORTED_FORMATS : list string :=
  [".png"; ".jpg"; ".jpeg"; ".gif"; ".bmp"; ".tiff"; ".tif"; ".ico"]
  ++ (if SVG_SUPPORT then [".svg"] else []).

Definition supported (suffix : string) : bool :=
  bool_decide (suffix ∈ SUPPORTED_FORMATS).

(** The mode normalisation shared by both converters. *)
Definition normalise (img : image) : outcome image :=
  if bool_decide (image_mode img ∈ ["RGBA"; "LA"])
     || (String.eqb (image_mode img) "P" && image_has_transparency img)
  then image_convert img "RGBA"
  else image_convert img "RGB".

Definition lift {A} (o : outcome A) : io A := fun fs => (o, fs).

Definition convert_svg_to_webp
    (svg_path output_path : path) (quality : Z) (scale : Q) : io bool :=
  if negb SVG_SUPPORT then io_ret false
  else
    io_try
      (png <- io_read (svg2png svg_path scale);;
       img <- lift (Image_open_bytes png);;
       img <- lift (normalise img);;
       Image_save img output_path quality;;;
       io_ret true)%io
      (fun _ => io_ret false).

Definition convert_image_to_webp
    (image_path output_path : path) (quality : Z) : io bool :=
  io_try
    (img <- io_read (Image_open image_path);;
     img <- lift (normalise img);;
     Image_save img output_path quality;;;
     io_ret true)%io
    (fun _ => io_ret false).

(** What a converter may do to the file system [fs] on the way to its
    result [r]: it returns, it leaves every path but [output_path] as it
    was, on success [output_path] holds a file, and on failure either
    nothing has changed or [Image.save] itself raised and the file system
    is as that call left it. *)
Definition conversion_effect
    (output_path : path) (quality : Z) (fs : filesystem)
    (r : outcome bool * filesystem) : Prop :=
  (∃ b, r.1 = Ok b)
  ∧ (∀ q, q ≠ output_path → r.2 !! q = fs !! q)
  ∧ (r.1 = Ok true → FS.is_file output_path r.2 = true)
  ∧ (r.1 = Ok false →
     r.2 = fs
     ∨ ∃ img e, Image_save img output_path quality fs = (Raise e, r.2)).

(** [input_path.with_suffix('.webp')] *)
Definition with_suffix_webp (p : path) : outcome path :=
  let name := PurePath.name p in
  if Str.is_empty name then Raise ValueError
  else
    let old_suffix := PurePath.suffix p in
    let name :=
      if Str.is_empty old_suffix then (name +:+ ".webp")
      else Str.take (String.length name - String.length old_suffix) name
           +:+ ".webp" in
    Ok (PurePath.parent p ++ [name]).

(** [p.relative_to(base)] *)
Definition relative_to (p base : path) : outcome path :=
  match PurePath.strip_prefix base p with
  | Some rel => Ok rel
  | None => Raise ValueError
  end.

(** A [Path] is always true, so [if output_dir:] and [and base_input]
    test for [None]. *)
Definition get_output_path
    (input_path : path) (output_dir : option path)
    (keep_structure : bool) (base_input : option path) : io path :=
  match output_dir with
  | Some output_dir =>
      (out_dir <-
         match keep_structure, base_input with
         | true, Some base_input =>
             (relative <-
                lift (relative_to (PurePath.parent input_path) base_input);;
              let out_dir := PurePath.join output_dir relative in
              FSOps.mkdir out_dir;;;
              io_ret out_dir)
         | _, _ => io_ret output_dir
         end;;
       io_ret (PurePath.join_name out_dir
                 (PurePath.stem input_path +:+ ".webp")))%io
  | None => lift (with_suffix_webp input_path)
  end.

(** [format_size].  The sizes are exact rationals: for a size below 2^53
    bytes every value the loop computes is a float without rounding, since
    the divisions are by a power of two, and [.1f] rounds the exact value
    to the nearest tenth, the even one of two equally near. *)

(** The decimal digits of a natural number. *)
Definition decimal (n : Z) : string :=
  NilZero.string_of_uint (N.to_uint (Z.to_N n)).

(** The integer nearest to [q], the even one of two equally near. *)
Definition round_half_even (q : Q) : Z :=
  let d := Z.pos (Qden q) in
  let lo := Qnum q / d in
  let twice_rest := 2 * (Qnum q mod d) in
  if twice_rest <? d then lo
  else if d <? twice_rest then lo + 1
  else if Z.even lo then lo else lo + 1.

(** [f"{x:.1f}"]: [x] rounded to one decimal place. *)
Definition format_1f (x : Q) : string :=
  let tenths := Z.abs (round_half_even (x * 10)) in
  (if Qnum x <? 0 then "-" else "")
  +:+ decimal (tenths / 10) +:+ "." +:+ decimal (tenths mod 10).

Fixpoint format_size_loop (units : list string) (size_bytes : Q) : string :=
  match units with
  | [] => format_1f size_bytes +:+ "TB"
  | unit :: units' =>
      if negb (Qle_bool 1024 size_bytes) then format_1f size_bytes +:+ unit
      else format_size_loop units' (size_bytes / 1024)
  end.

Definition format_size (size_bytes : Z) : string :=
  format_size_loop ["B"; "KB"; "MB"; "GB"] (inject_Z size_bytes).

(** The sizes and the percentage that [process_file] formats into
    [size_info]; the rendering of the text (with [format_size] and the
    [+.1f] format) is left out. *)
Record size_info := {
  original_size : Z;
  new_size : Z;
  reduction : Q
}.

(** The message [process_file] returns, by its fixed part:
    - [NoMessage] is the empty string;
    - [Skipped n] is ["  ⊘ Skipped (unsupported): n"];
    - [AlreadyConverted n] is ["  ○ Already converted: n"];
    - [Converted n o i] is ["  ✓ Converted: n → o i"];
    - [ConvertedRemoved n o i] is ["  ✓ Converted & removed: n → o i"];
    - [ConvertedNotRemoved n o i e] is
      ["  ✓ Converted: n → o i (could not delete: e)"]. *)
Inductive message :=
  | NoMessage
  | Skipped (name : string)
  | AlreadyConverted (name : string)
  | Converted (name out_name : string) (info : size_info)
  | ConvertedRemoved (name out_name : string) (info : size_info)
  | ConvertedNotRemoved (name out_name : string) (info : size_info)
      (e : exn).

(** [a / b] on integers: true division, which raises on a zero divisor.
    The quotient is kept exact; Python rounds it to a float. *)
Definition true_div (a b : Z) : outcome Q :=
  if b =? 0 then Raise ZeroDivisionError
  else Ok (Qmake (a * Z.sgn b) (Z.to_pos (Z.abs b))).

(** [((original_size - new_size) / original_size) * 100
     if original_size > 0 else 0] *)
Definition size_reduction (original_size new_size : Z) : outcome Q :=
  if 0 <? original_size then
    match true_div (original_size - new_size) original_size with
    | Ok q => Ok (q * 100)%Q
    | Raise e => Raise e
    end
  else Ok 0%Q.

Definition process_file
    (file_path : path) (output_dir : option path) (quality : Z)
    (scale : Q) (keep_structure : bool) (base_input : option path)
    (delete_on_success : bool) : io (bool * message) :=
  let suffix := Str.lower (PurePath.suffix file_path) in
  if negb (supported suffix) then
    io_ret (false, Skipped (PurePath.name file_path))
  else
    (output_path <-
       get_output_path file_path output_dir keep_structure base_input;;
     output_exists <- FS.exists_ output_path;;
     up_to_date <-
       (if (output_exists : bool) then
          out_st <- FS.stat output_path;;
          in_st <- FS.stat file_path;;
          io_ret (st_mtime in_st <? st_mtime out_st)
        else io_ret false);;
     if (up_to_date : bool) then
       io_ret (true, AlreadyConverted (PurePath.name file_path))
     else
       success <-
         (if String.eqb suffix ".svg" then
            convert_svg_to_webp file_path output_path quality scale
          else convert_image_to_webp file_path output_path quality);;
       if (success : bool) then
         in_st <- FS.stat file_path;;
         out_st <- FS.stat output_path;;
         reduction <- lift (size_reduction (st_size in_st) (st_size out_st));;
         let info := {| original_size := st_size in_st;
                        new_size := st_size out_st;
                        reduction := reduction |} in
         let name := PurePath.name file_path in
         let out_name := PurePath.name output_path in
         if delete_on_success then
           io_try
             (FS.unlink file_path;;;
              io_ret (true, ConvertedRemoved name out_name info))
             (fun e =>
                io_ret (true, ConvertedNotRemoved name out_name info e))
         else io_ret (true, Converted name out_name info)
       else io_ret (false, NoMessage))%io.

(** The two halves of [process_file] around the conversion, named for
    the proofs: the test [output_path.exists() and ... > ...], and what
    follows [if success:]. *)
Definition check_up_to_date (output_path file_path : path) : io bool :=
  (output_exists <- FS.exists_ output_path;;
   if (output_exists : bool) then
     out_st <- FS.stat output_path;;
     in_st <- FS.stat file_path;;
     io_ret (st_mtime in_st <? st_mtime out_st)
   else io_ret false)%io.

Definition report_conversion
    (file_path output_path : path) (delete_on_success success : bool)
    : io (bool * message) :=
  if success then
    (in_st <- FS.stat file_path;;
     out_st <- FS.stat output_path;;
     reduction <- lift (size_reduction (st_size in_st) (st_size out_st));;
     let info := {| original_size := st_size in_st;
                    new_size := st_size out_st;
                    reduction := reduction |} in
     let name := PurePath.name file_path in
     let out_name := PurePath.name output_path in
     if delete_on_success then
       io_try
         (FS.unlink file_path;;;
          io_ret (true, ConvertedRemoved name out_name info))
         (fun e =>
            io_ret (true, ConvertedNotRemoved name out_name info e))
     else io_ret (true, Converted name out_name info))%io
  else io_ret (false, NoMessage).

Definition message_info (m : message) : option size_info :=
  match m with
  | Converted _ _ info | ConvertedRemoved _ _ info
  | ConvertedNotRemoved _ _ info _ => Some info
  | _ => None
  end.

(** The order of [sorted] on paths: component by component, each by
    code points. *)
Fixpoint path_leb (p q : path) : bool :=
  match p, q with
  | [], _ => true
  | _ :: _, [] => false
  | a :: p', b :: q' =>
      match String.compare a b with
      | Lt => true
      | Gt => false
      | Eq => path_leb p' q'
      end
  end.

(** Whether [path.glob(pattern + ext)] yields [p], for the patterns
    ['*'] ([recursive = false]: the entries of [root]) and ['**/*']
    ([recursive = true]: the entries of [root] and of the directories
    below it). *)
Definition glob_match
    (root : path) (recursive : bool) (ext : string) (p : path) : bool :=
  match PurePath.strip_prefix root p with
  | Some [] | None => false
  | Some (c :: rel) =>
      (recursive || bool_decide (rel = []))
      && Str.ends_with (PurePath.name p) ext
  end.

(** [path.glob(f"{pattern}{ext}")], in no particular order. *)
Definition glob
    (root : path) (recursive : bool) (ext : string) (fs : filesystem)
    : list path :=
  if FS.is_dir root fs then
    filter (λ p, Is_true (glob_match root recursive ext p))
           (map_to_list fs).*1
  else [].

Definition find_images
    (root : path) (recursive : bool) (fs : filesystem) : list path :=
  if FS.is_file root fs then
    if supported (Str.lower (PurePath.suffix root)) then [root] else []
  else
    let images :=
      foldl (λ images ext,
               (images ++ glob root recursive ext fs)
               ++ glob root recursive (Str.upper ext) fs)
            [] SUPPORTED_FORMATS in
    merge_sort (λ p q, Is_true (path_leb p q)) (remove_dups images).

(** The names that are a supported extension, in lower or in upper case,
    and nothing else: [".png"], [".JPG"]. *)
Definition bare_extension (name : string) : bool :=
  bool_decide
    (name ∈ SUPPORTED_FORMATS ++ (Str.upper <$> SUPPORTED_FORMATS)).

(** The parsed command line. *)
Record arguments := {
  arg_input : option path;
  arg_output : option path;
  arg_quality : Z;
  arg_recursive : bool;
  arg_scale : Q;
  arg_keep_structure : bool;
  arg_no_delete : bool
}.

(** How a run ends: [sys.exit(code)], the end of [main] after the
    summary line with its two counters, or an exception that nothing
    caught (the interpreter prints the traceback; the exit code is 1). *)
Inductive run_end :=
  | Exit (code : Z)
  | Done (success_count fail_count : nat)
  | Uncaught (e : exn).

Definition exit_code (r : run_end) : Z :=
  match r with
  | Exit code => code
  | Done _ _ => 0
  | Uncaught _ => 1
  end.

(** One turn of the loop of [main], after [process_file] returned. *)
Definition tally (counts : nat * nat) (result : bool * message)
    : nat * nat :=
  if result.1 then (S counts.1, counts.2) else (counts.1, S counts.2).

(** The loop [for image in images: ...] of [main]. *)
Fixpoint process_images
    (images : list path) (a : arguments) (output : option path)
    (base_input : path) (delete_on_success : bool) (counts : nat * nat)
    (fs : filesystem) : run_end * filesystem :=
  match images with
  | [] => (Done counts.1 counts.2, fs)
  | image :: images' =>
      match process_file image output (arg_quality a) (arg_scale a)
              (arg_keep_structure a) (Some base_input)
              delete_on_success fs with
      | (Ok result, fs') =>
          process_images images' a output base_input delete_on_success
            (tally counts result) fs'
      | (Raise e, fs') => (Uncaught e, fs')
      end
  end.

(** [default_mode], and [args.input], [args.output] and
    [delete_on_success] after the default-mode block of [main]. *)
Definition default_mode (a : arguments) : bool :=
  match arg_input a with None => true | Some _ => false end.

Definition run_input (script_dir : path) (a : arguments) : path :=
  default (PurePath.join_name script_dir "input") (arg_input a).

Definition run_output (script_dir : path) (a : arguments) : option path :=
  if default_mode a then
    Some (default (PurePath.join_name script_dir "output") (arg_output a))
  else arg_output a.

Definition run_delete (a : arguments) : bool :=
  if default_mode a then negb (arg_no_delete a) else false.

(** [if args.output: args.output.mkdir(parents=True, exist_ok=True)] *)
Definition make_output_dir (output : option path) : io unit :=
  match output with
  | Some o => FSOps.mkdir o
  | None => io_ret tt
  end.

Definition main (script_dir : path) (a : arguments) (fs : filesystem)
    : run_end * filesystem :=
  let input := run_input script_dir a in
  let output := run_output script_dir a in
  let delete_on_success := run_delete a in
  if negb (FS.mem input fs) then (Exit 1, fs)
  else if negb ((1 <=? arg_quality a) && (arg_quality a <=? 100)) then
    (Exit 1, fs)
  else
    match make_output_dir output fs with
    | (Raise e, fs') => (Uncaught e, fs')
    | (Ok _, fs') =>
        let images := find_images input (arg_recursive a) fs' in
        match images with
        | [] => (Exit 0, fs')
        | _ :: _ =>
            let base_input :=
              if FS.is_dir input fs' then input
              else PurePath.parent input in
            process_images images a output base_input delete_on_success
              (0%nat, 0%nat) fs'
        end
    end.

(** The stages of [process_file] on a supported file: the output path
    resolved in [fs1], the conversion done in [fs2], the report. *)
Inductive stage
    (fs : filesystem) (file : path) (out : option path) (quality : Z)
    (scale : Q) (ks : bool) (base : option path) (del : bool)
    : outcome (bool * message) → filesystem → Prop :=
  | stage_resolve_raised e fs1 :
      get_output_path file out ks base fs = (Raise e, fs1) →
      stage fs file out quality scale ks base del (Raise e) fs1
  | stage_stat_raised output fs1 :
      get_output_path file out ks base fs = (Ok output, fs1) →
      is_Some (fs1 !! output) → fs1 !! file = None →
      stage fs file out quality scale ks base del (Raise FileNotFoundError) fs1
  | stage_up_to_date output fs1 n_out n_in :
      get_output_path file out ks base fs = (Ok output, fs1) →
      fs1 !! output = Some n_out → fs1 !! file = Some n_in →
      st_mtime (node_stat n_in) < st_mtime (node_stat n_out) →
      stage fs file out quality scale ks base del
        (Ok (true, AlreadyConverted (PurePath.name file))) fs1
  | stage_converted output fs1 success fs2 r fs' :
      get_output_path file out ks base fs = (Ok output, fs1) →
      (fs1 !! output = None
       ∨ ∃ n_out n_in, fs1 !! output = Some n_out ∧ fs1 !! file = Some n_in
           ∧ st_mtime (node_stat n_out) ≤ st_mtime (node_stat n_in)) →
      conversion_effect output quality fs1 (Ok success, fs2) →
      report_conversion file output del success fs2 = (r, fs') →
      stage fs file out quality scale ks base del r fs'.

End convert.

(** * A stand-in for the image libraries, and sample file systems *)

Module Toy.

(** An image is its width.  A file opens as an image as wide as the file
    is long; an empty file is not an image. *)
Definition open (p : path) (fs : filesystem) : outcome Z :=
  match fs !! p with
  | Some (File st) =>
      if 0 <? st_size st then Ok (st_size st)
      else Raise (LibraryError "cannot identify image file")
  | Some (Dir _) => Raise IsADirectoryError
  | None => Raise FileNotFoundError
  end.

(** Saving as Pillow's [Image.save] does it: the destination is opened
    for writing, which truncates a file that is there, and then the
    image is encoded into it.  When the encoder raises (here: the image
    is wider than WebP allows), the destination is removed if the call
    created it and is left truncated if it was there before. *)
Definition save (img : Z) (out : path) (quality : Z) : io unit :=
  fun fs =>
    if negb (FS.is_dir (PurePath.parent out) fs) then
      (Raise FileNotFoundError, fs)
    else
      match fs !! out with
      | Some (Dir _) => (Raise IsADirectoryError, fs)
      | existing =>
          if img <=? 16383 then
            (Ok tt,
             <[out := File {| st_mtime := 100; st_size := img / 2 |}]> fs)
          else
            (Raise (LibraryError "encoding error 5"),
             match existing with
             | Some _ =>
                 <[out := File {| st_mtime := 100; st_size := 0 |}]> fs
             | None => fs
             end)
      end.

Lemma save_frame img out quality fs q :
  q ≠ out → (save img out quality fs).2 !! q = fs !! q.
Proof.
  intros Hq. unfold save. destruct (negb _); [done|].
  destruct (fs !! out) as [[st|st]|] eqn:E; simpl; try done;
    destruct (img <=? 16383); simpl; try done; by rewrite lookup_insert_ne.
Qed.

Lemma save_file img out quality fs :
  (save img out quality fs).1 = Ok tt →
  FS.is_file out (save img out quality fs).2 = true.
Proof.
  unfold save, FS.is_file. destruct (negb _); [done|].
  destruct (fs !! out) as [[st|st]|] eqn:E; simpl; try done;
    destruct (img <=? 16383); simpl; try done;
    intros _; by rewrite lookup_insert_eq.
Qed.

Definition collaborators (svg : bool) : Collaborators := {|
  SVG_SUPPORT := svg;
  image := Z;
  png_data := Z;
  Image_open := open;
  Image_open_bytes := Ok;
  svg2png := fun p _ fs => open p fs;
  image_mode := fun _ => "RGB";
  image_has_transparency := fun _ => false;
  image_convert := fun img _ => Ok img;
  Image_save := save;
  new_dir_stat := {| st_mtime := 100; st_size := 0 |};
  Image_save_frame := save_frame;
  Image_save_file := save_file
|}.

Definition pillow : Collaborators := collaborators true.
Definition no_svg : Collaborators := collaborators false.

Definition dir : node := Dir {| st_mtime := 0; st_size := 0 |}.
Definition file (mtime size : Z) : node :=
  File {| st_mtime := mtime; st_size := size |}.

(** [/in/a.png], [/in/b.txt] and [/in/sub/x.png]. *)
Definition fs_in : filesystem :=
  list_to_map
    [([], dir); (["in"], dir); (["in"; "a.png"], file 10 10000);
     (["in"; "b.txt"], file 10 5); (["in"; "sub"], dir);
     (["in"; "sub"; "x.png"], file 10 2048)].

(** [fs_in] after a run that put [a.webp] beside [a.png]. *)
Definition fs_done : filesystem :=
  <[["in"; "a.webp"] := file 20 5000]> fs_in.

(** An input directory whose one file is named [.png]. *)
Definition fs_dot : filesystem :=
  list_to_map [([], dir); (["in"], dir); (["in"; ".png"], file 10 9)].

(** An input directory whose one file is [a.Png]. *)
Definition fs_mixed : filesystem :=
  list_to_map [([], dir); (["in"], dir); (["in"; "a.Png"], file 10 9)].

(** [fs_in] with a third image, [/in/z.png], and an output directory
    [/out] in which [sub] is a regular file. *)
Definition fs_blocked : filesystem :=
  <[["in"; "z.png"] := file 10 300]>
    (<[["out"; "sub"] := file 3 7]> (<[["out"] := dir]> fs_in)).


(** An empty input directory. *)
Definition fs_empty : filesystem :=
  list_to_map [([], dir); (["in"], dir)].

Definition args
    (input : path) (output : option path) (quality : Z)
    (recursive keep_structure : bool) : arguments := {|
  arg_input := Some input;
  arg_output := output;
  arg_quality := quality;
  arg_recursive := recursive;
  arg_scale := 1;
  arg_keep_structure := keep_structure;
  arg_no_delete := false
|}.

End Toy.

(** * Facts about strings and pure paths *)

Lemma ends_with_nil e : Str.ends_with "" e = true ↔ e = "".
Proof. destruct e; simpl; split; congruence. Qed.

Lemma ends_with_cons a s e :
  Str.ends_with (String a s) e = true ↔ String a s = e ∨ Str.ends_with s e = true.
Proof.
  change (Str.ends_with (String a s) e)
    with (String.eqb (String a s) e || Str.ends_with s e).
  by rewrite orb_true_iff, String.eqb_eq.
Qed.

Lemma ends_with_app s e : Str.ends_with s e = true ↔ ∃ pre, s = pre +:+ e.
Proof.
  induction s as [|a s IH].
  - rewrite ends_with_nil. split.
    + intros ->. by exists "".
    + intros [[|b pre] Hpre]; simpl in Hpre; [done | discriminate].
  - rewrite ends_with_cons, IH. split.
    + intros [<- | [pre ->]]; [by exists "" | by exists (String a pre)].
    + intros [[|b pre] Hpre]; simpl in Hpre; [by left | right].
      injection Hpre as -> ->. by exists pre.
Qed.

Lemma rfind_cons c a s :
  Str.rfind c (String a s) =
  if 0 <=? Str.rfind c s then Str.rfind c s + 1
  else if Ascii.eqb a c then 0 else -1.
Proof. reflexivity. Qed.

Lemma str_len_cons a s : Str.len (String a s) = Str.len s + 1.
Proof. unfold Str.len. simpl String.length. lia. Qed.

Lemma str_len_nonneg s : 0 ≤ Str.len s.
Proof. unfold Str.len. lia. Qed.

Lemma rfind_bounds c s : -1 ≤ Str.rfind c s < Str.len s.
Proof.
  induction s as [|a s IH]; [unfold Str.len; simpl; lia|].
  rewrite rfind_cons, str_len_cons.
  destruct (Z.leb_spec 0 (Str.rfind c s)); [lia|].
  destruct (Ascii.eqb a c); lia.
Qed.

Lemma str_append_nil s : "" +:+ s = s.
Proof. reflexivity. Qed.

Lemma str_append_cons a pre s : String a pre +:+ s = String a (pre +:+ s).
Proof. reflexivity. Qed.

Lemma rfind_app c pre s :
  0 ≤ Str.rfind c s → Str.rfind c (pre +:+ s) = Str.len pre + Str.rfind c s.
Proof.
  intros Hs. induction pre as [|a pre IH].
  - rewrite str_append_nil. unfold Str.len. simpl String.length. lia.
  - rewrite str_append_cons, rfind_cons, str_len_cons, IH.
    pose proof (str_len_nonneg pre).
    destruct (Z.leb_spec 0 (Str.len pre + Str.rfind c s)); lia.
Qed.

Lemma str_length_app pre s :
  String.length (pre +:+ s) = (String.length pre + String.length s)%nat.
Proof.
  induction pre as [|a pre IH]; [done|].
  rewrite str_append_cons. simpl String.length. by rewrite IH.
Qed.

Lemma str_len_app pre s : Str.len (pre +:+ s) = Str.len pre + Str.len s.
Proof. unfold Str.len. rewrite str_length_app. lia. Qed.

Lemma str_drop_app pre s : Str.drop (String.length pre) (pre +:+ s) = s.
Proof. induction pre as [|a pre IH]; [done|]. by rewrite str_append_cons. Qed.

Lemma str_take_app pre s : Str.take (String.length pre) (pre +:+ s) = pre.
Proof.
  induction pre as [|a pre IH]; [done|].
  rewrite str_append_cons. simpl. by rewrite IH.
Qed.

Lemma rfind_extension pre e :
  Str.extension_shape e = true → Str.rfind "." (pre +:+ e) = Str.len pre.
Proof.
  destruct e as [|a r]; [done|]. simpl.
  destruct (Ascii.eqb_spec a ".") as [->|]; [|by destruct a as [[] [] [] [] [] [] [] []]].
  intros [_ Hr%Z.ltb_lt]%andb_true_iff.
  rewrite rfind_app; rewrite rfind_cons; destruct (Z.leb_spec 0 (Str.rfind "." r)); simpl; lia.
Qed.

Lemma suffix_extension (p : path) pre e :
  PurePath.name p = pre +:+ e → Str.extension_shape e = true → pre ≠ "" →
  PurePath.suffix p = e ∧ PurePath.stem p = pre.
Proof.
  intros Hname He Hpre. unfold PurePath.suffix, PurePath.stem.
  rewrite Hname, rfind_extension, str_len_app by done.
  assert (0 < Str.len pre) as Hpos.
  { destruct pre; [done|]. rewrite str_len_cons. pose proof (str_len_nonneg pre). lia. }
  assert (2 ≤ Str.len e) as Hlen.
  { destruct e as [|a [|b r]]; try done.
    - simpl in He. by destruct a as [[] [] [] [] [] [] [] []].
    - rewrite !str_len_cons. pose proof (str_len_nonneg r). lia. }
  replace (0 <? Str.len pre) with true by (symmetry; apply Z.ltb_lt; lia).
  replace (Str.len pre <? Str.len pre + Str.len e - 1) with true
    by (symmetry; apply Z.ltb_lt; lia).
  simpl. unfold Str.len. rewrite Nat2Z.id. by rewrite str_drop_app, str_take_app.
Qed.

Lemma str_length_drop n s :
  String.length (Str.drop n s) = (String.length s - n)%nat.
Proof.
  revert s. induction n as [|n IH]; intros [|a s]; simpl; done || lia.
Qed.

Lemma is_empty_true s : Str.is_empty s = true ↔ s = "".
Proof. by destruct s. Qed.

(** [with_suffix('.webp')] keeps the directory and the stem. *)
Lemma with_suffix_webp_stem (p : path) :
  PurePath.name p ≠ "" →
  with_suffix_webp p
  = Ok (PurePath.parent p ++ [PurePath.stem p +:+ ".webp"]).
Proof.
  intros Hname. unfold with_suffix_webp.
  destruct (Str.is_empty (PurePath.name p)) eqn:Hempty;
    [by apply is_empty_true in Hempty|].
  unfold PurePath.suffix, PurePath.stem.
  set (name := PurePath.name p) in *. clearbody name.
  pose proof (rfind_bounds "." name) as Hi.
  destruct ((0 <? Str.rfind "." name)
            && (Str.rfind "." name <? Str.len name - 1)) eqn:Hc.
  - apply andb_true_iff in Hc as [H0%Z.ltb_lt H1%Z.ltb_lt].
    unfold Str.len in *.
    assert (String.length (Str.drop (Z.to_nat (Str.rfind "." name)) name)
            = (String.length name - Z.to_nat (Str.rfind "." name))%nat)
      as Hlen by apply str_length_drop.
    destruct (Str.is_empty (Str.drop (Z.to_nat (Str.rfind "." name)) name))
      eqn:Hd.
    + apply is_empty_true in Hd. rewrite Hd in Hlen. simpl in Hlen. lia.
    + rewrite Hlen.
      by replace (String.length name
                  - (String.length name - Z.to_nat (Str.rfind "." name)))%nat
        with (Z.to_nat (Str.rfind "." name)) by lia.
  - done.
Qed.

(** * Facts about the file system *)

Section fs_facts.
Context `{Collaborators}.
Implicit Types (fs : filesystem) (p q : path).

Lemma is_dir_lookup p fs :
  FS.is_dir p fs = true ↔ ∃ st, fs !! p = Some (Dir st).
Proof.
  unfold FS.is_dir. destruct (fs !! p) as [[st|st]|]; split; try done;
    try (intros [? ?]; done). eauto.
Qed.

(** What one step of [mkdir] does. *)
Lemma ensure_dir_ok last q fs fs' :
  FSOps.ensure_dir last q fs = (Ok tt, fs') →
  FS.is_dir q fs' = true ∧
  (FS.is_dir q fs = true ∧ fs' = fs
   ∨ fs !! q = None ∧ fs' = <[q := Dir new_dir_stat]> fs).
Proof.
  unfold FSOps.ensure_dir, FS.is_dir.
  destruct (fs !! q) as [[st|st]|] eqn:E; intros [= <-].
  - rewrite E. auto.
  - rewrite lookup_insert_eq. auto.
Qed.

Lemma ensure_dir_raise last q fs e fs' :
  FSOps.ensure_dir last q fs = (Raise e, fs') →
  fs' = fs ∧ FS.is_file q fs = true.
Proof.
  unfold FSOps.ensure_dir, FS.is_file.
  by destruct (fs !! q) as [[st|st]|] eqn:E; intros [= <- <-].
Qed.

Lemma only_adds_dirs_refl target fs : FSOps.only_adds_dirs target fs fs.
Proof. intros q. by left. Qed.

Lemma only_adds_dirs_trans target fs1 fs2 fs3 :
  FSOps.only_adds_dirs target fs1 fs2 → FSOps.only_adds_dirs target fs2 fs3 →
  FSOps.only_adds_dirs target fs1 fs3.
Proof.
  intros H12 H23 q. destruct (H12 q) as [E12|(N1 & D2 & P)],
    (H23 q) as [E23|(N2 & D3 & P')]; try (left; congruence);
    try (right; split_and!; congruence).
Qed.

Lemma mkdir_from_spec done todo fs r fs' :
  FSOps.mkdir_from done todo fs = (r, fs') →
  FSOps.only_adds_dirs (done ++ todo) fs fs' ∧
  (r = Ok tt → FS.is_dir (done ++ todo) fs' = true).
Proof.
  revert done fs. induction todo as [|c todo IH]; intros done fs; simpl.
  - rewrite app_nil_r. destruct r as [[]|e]; intros Hm.
    + apply ensure_dir_ok in Hm as [Hd [[_ ->]|[Hn ->]]]; split; try done.
      * apply only_adds_dirs_refl.
      * intros q. destruct (decide (q = done)) as [->|Hne].
        -- right. by rewrite lookup_insert_eq.
        -- left. by rewrite lookup_insert_ne.
    + apply ensure_dir_raise in Hm as [-> _]. split; [|done].
      apply only_adds_dirs_refl.
  - unfold io_bind.
    destruct (FSOps.ensure_dir false done fs) as [[[]|e] fs1] eqn:E1.
    + intros Hm. apply IH in Hm as [Hadd Hdir].
      rewrite <- app_assoc in Hadd, Hdir. simpl in Hadd, Hdir.
      split; [|done]. eapply only_adds_dirs_trans; [|done].
      apply ensure_dir_ok in E1 as [_ [[_ ->]|[Hn ->]]].
      * apply only_adds_dirs_refl.
      * intros q. destruct (decide (q = done)) as [->|Hne].
        -- right. rewrite lookup_insert_eq. split_and!; try done.
           by apply prefix_app_r.
        -- left. by rewrite lookup_insert_ne.
    + intros [= <- <-]. apply ensure_dir_raise in E1 as [-> _].
      split; [|done]. apply only_adds_dirs_refl.
Qed.

Lemma mkdir_spec p fs r fs' :
  FSOps.mkdir p fs = (r, fs') →
  FSOps.only_adds_dirs p fs fs' ∧ (r = Ok tt → FS.is_dir p fs' = true).
Proof. apply (mkdir_from_spec [] p). Qed.

Lemma only_adds_dirs_keeps target fs fs' q n :
  FSOps.only_adds_dirs target fs fs' → fs !! q = Some n → fs' !! q = Some n.
Proof. intros Hadd Hq. destruct (Hadd q) as [->|[? _]]; congruence. Qed.

Lemma only_adds_dirs_is_dir target fs fs' q :
  FSOps.only_adds_dirs target fs fs' → FS.is_dir q fs = true → FS.is_dir q fs' = true.
Proof.
  rewrite !is_dir_lookup. intros Hadd [st Hq]. exists st.
  by eapply only_adds_dirs_keeps.
Qed.

Lemma only_adds_dirs_outside target fs fs' q :
  FSOps.only_adds_dirs target fs fs' → ¬ q `prefix_of` target → fs' !! q = fs !! q.
Proof. intros Hadd Hq. by destruct (Hadd q) as [->|(_ & _ & ?)]. Qed.

End fs_facts.

(** * Facts about output paths *)

Section path_facts.
Context `{Collaborators}.
Implicit Types (fs : filesystem) (p q : path).

Lemma parent_snoc p (s : string) : PurePath.parent (p ++ [s]) = p.
Proof. apply removelast_last. Qed.

Lemma name_snoc p (s : string) : PurePath.name (p ++ [s]) = s.
Proof. apply List.last_last. Qed.

Lemma strip_prefix_Some base p rel :
  PurePath.strip_prefix base p = Some rel ↔ p = base ++ rel.
Proof.
  revert p. induction base as [|b base IH]; intros p; simpl.
  - split; [by intros [= ->] | by intros ->].
  - destruct p as [|c p]; [done|].
    destruct (String.eqb_spec b c) as [->|Hne].
    + rewrite IH. split; [by intros -> | by intros [= ->]].
    + split; [done | by intros [= -> _]].
Qed.

(** In a well-formed file system every path above an entry is a
    directory. *)
Lemma well_formed_above fs done todo n :
  FS.well_formed fs → fs !! (done ++ todo) = Some n → todo ≠ [] →
  FS.is_dir done fs = true.
Proof.
  intros Hwf. revert n. induction todo as [|c todo IH] using rev_ind;
    intros n Hn Hne; [done|].
  assert (FS.is_dir (done ++ todo) fs = true) as Hd.
  { specialize (Hwf _ _ Hn). rewrite app_assoc, parent_snoc in Hwf.
    apply Hwf. rewrite <- app_assoc. by destruct done, todo. }
  destruct todo as [|c' todo'] eqn:E; [by rewrite app_nil_r in Hd|].
  rewrite <- E in *. apply is_dir_lookup in Hd as [st Hd].
  eapply IH; [done | by subst].
Qed.

Lemma mkdir_from_existing fs done todo :
  FS.well_formed fs → FS.is_dir (done ++ todo) fs = true →
  FSOps.mkdir_from done todo fs = (Ok tt, fs).
Proof.
  intros Hwf. revert done. induction todo as [|c todo IH]; intros done Hd.
  - rewrite app_nil_r in Hd. apply is_dir_lookup in Hd as [st Hd].
    simpl. unfold FSOps.ensure_dir. by rewrite Hd.
  - assert (FS.is_dir done fs = true) as Hdone.
    { apply is_dir_lookup in Hd as [st Hd].
      by eapply well_formed_above. }
    apply is_dir_lookup in Hdone as [st Hdone].
    simpl. unfold io_bind, FSOps.ensure_dir at 1. rewrite Hdone.
    apply IH. by rewrite <- app_assoc.
Qed.

Lemma mkdir_existing fs p :
  FS.well_formed fs → FS.is_dir p fs = true → FSOps.mkdir p fs = (Ok tt, fs).
Proof. apply (mkdir_from_existing fs []). Qed.

(** [get_output_path], case by case. *)
Lemma get_output_path_beside input ks base fs :
  get_output_path input None ks base fs = (with_suffix_webp input, fs).
Proof. reflexivity. Qed.

Lemma get_output_path_flat input o ks base fs :
  ks = false ∨ base = None →
  get_output_path input (Some o) ks base fs
  = (Ok (o ++ [PurePath.stem input +:+ ".webp"]), fs).
Proof. intros [-> | ->]; [by destruct base | by destruct ks]. Qed.

Lemma get_output_path_mirror input o b fs :
  get_output_path input (Some o) true (Some b) fs
  = match PurePath.strip_prefix b (PurePath.parent input) with
    | None => (Raise ValueError, fs)
    | Some rel =>
        match FSOps.mkdir (o ++ rel) fs with
        | (Ok _, fs') =>
            (Ok ((o ++ rel) ++ [PurePath.stem input +:+ ".webp"]), fs')
        | (Raise e, fs') => (Raise e, fs')
        end
    end.
Proof.
  unfold get_output_path, relative_to, io_bind, lift, io_ret, PurePath.join,
    PurePath.join_name.
  destruct (PurePath.strip_prefix b (PurePath.parent input)); [|done].
  by destruct (FSOps.mkdir (o ++ l) fs) as [[[]|e] fs'].
Qed.

(** [get_output_path] only adds directories, none of them the path it
    returns. *)
Lemma get_output_path_effect input out ks base fs r fs' :
  get_output_path input out ks base fs = (r, fs') →
  ∃ target, FSOps.only_adds_dirs target fs fs'
            ∧ ∀ p, r = Ok p → ¬ p `prefix_of` target.
Proof.
  destruct out as [o|]; [destruct ks, base as [b|]|].
  - rewrite get_output_path_mirror.
    destruct (PurePath.strip_prefix b (PurePath.parent input)) as [rel|].
    + destruct (FSOps.mkdir (o ++ rel) fs) as [[[]|e] fs1] eqn:Em;
        intros [= <- <-]; exists (o ++ rel);
        (split; [by apply mkdir_spec in Em as [? _]|]); [|done].
      intros p [= <-] Hpre%prefix_length. rewrite length_app in Hpre.
      simpl in Hpre. lia.
    + intros [= <- <-]. exists []. split; [apply only_adds_dirs_refl|done].
  - rewrite get_output_path_flat by auto. intros [= <- <-]. exists [].
    split; [apply only_adds_dirs_refl|].
    intros p [= <-] Hpre%prefix_length. rewrite length_app in Hpre.
    simpl in Hpre. lia.
  - rewrite get_output_path_flat by auto. intros [= <- <-]. exists [].
    split; [apply only_adds_dirs_refl|].
    intros p [= <-] Hpre%prefix_length. rewrite length_app in Hpre.
    simpl in Hpre. lia.
  - rewrite get_output_path_flat by auto. intros [= <- <-]. exists [].
    split; [apply only_adds_dirs_refl|].
    intros p [= <-] Hpre%prefix_length. rewrite length_app in Hpre.
    simpl in Hpre. lia.
  - rewrite get_output_path_beside. intros [= <- <-]. exists [].
    split; [apply only_adds_dirs_refl|].
    unfold with_suffix_webp. destruct (Str.is_empty _); [done|].
    intros p [= <-] Hpre%prefix_length. rewrite length_app in Hpre.
    simpl in Hpre. lia.
Qed.
End path_facts.

(** * Facts about the walker *)

Section walker.
Context `{Collaborators}.
Implicit Types (fs : filesystem) (p q : path).

Lemma elem_of_glob root recursive ext fs p :
  p ∈ glob root recursive ext fs
  ↔ FS.is_dir root fs = true ∧ FS.mem p fs = true
    ∧ glob_match root recursive ext p = true.
Proof.
  unfold glob, FS.mem. destruct (FS.is_dir root fs).
  - rewrite list_elem_of_filter, list_elem_of_fmap, Is_true_true. split.
    + intros [Hm [[q n] [-> Hq%elem_of_map_to_list]]]. simpl in *.
      by rewrite Hq.
    + intros (_ & Hp & Hm). split; [done|].
      destruct (fs !! p) as [n|] eqn:E; [|done].
      exists (p, n). split; [done|]. by apply elem_of_map_to_list.
  - split; [by intros ?%elem_of_nil | by intros [? _]].
Qed.

Lemma elem_of_foldl_app {A B} (f : B → list A) (g : B → list A) l init x :
  x ∈ foldl (λ acc b, (acc ++ f b) ++ g b) init l
  ↔ x ∈ init ∨ ∃ b, b ∈ l ∧ (x ∈ f b ∨ x ∈ g b).
Proof.
  revert init. induction l as [|b l IH]; intros init; simpl.
  - split; [auto|]. intros [?|(b & ?%elem_of_nil & _)]; done.
  - rewrite IH, !elem_of_app. split.
    + intros [[[?|?]|?]|(b' & ? & ?)]; [by left|..];
        right; [exists b|exists b|exists b'];
        (split; [by constructor|auto]).
    + intros [?|(b' & [->|?]%elem_of_cons & ?)]; [tauto|tauto|eauto].
Qed.

(** Which paths [find_images] returns. *)
Lemma elem_of_find_images root recursive fs p :
  p ∈ find_images root recursive fs
  ↔ if FS.is_file root fs then
      p = root ∧ supported (Str.lower (PurePath.suffix root)) = true
    else
      FS.is_dir root fs = true ∧ FS.mem p fs = true
      ∧ ∃ ext, ext ∈ SUPPORTED_FORMATS
               ∧ (glob_match root recursive ext p = true
                  ∨ glob_match root recursive (Str.upper ext) p = true).
Proof.
  unfold find_images. destruct (FS.is_file root fs).
  - destruct (supported _).
    + rewrite list_elem_of_singleton. split; [by intros -> | by intros [-> _]].
    + split; [by intros ?%elem_of_nil | by intros [_ ?]].
  - rewrite merge_sort_Permutation, elem_of_remove_dups, elem_of_foldl_app.
    setoid_rewrite elem_of_glob. split.
    + intros [?%elem_of_nil|(ext & Hext & [(?&?&?)|(?&?&?)])]; [done|..];
        split_and!; eauto.
    + intros (Hd & Hp & ext & Hext & Hm). right. exists ext.
      split; [done|]. destruct Hm; [left|right]; done.
Qed.

Lemma find_images_NoDup root recursive fs :
  NoDup (find_images root recursive fs).
Proof.
  unfold find_images. destruct (FS.is_file root fs).
  - destruct (supported _); [apply NoDup_singleton | apply NoDup_nil_2].
  - rewrite merge_sort_Permutation. apply NoDup_remove_dups.
Qed.

Lemma path_leb_total p q : path_leb p q = true ∨ path_leb q p = true.
Proof.
  revert q. induction p as [|a p IH]; intros [|b q]; simpl; auto.
  rewrite (String.compare_antisym b a).
  destruct (String.compare a b) eqn:E; simpl; auto.
Qed.

Lemma find_images_Sorted root recursive fs :
  Sorted (λ p q, Is_true (path_leb p q)) (find_images root recursive fs).
Proof.
  unfold find_images. destruct (FS.is_file root fs).
  - destruct (supported _); repeat constructor.
  - apply Sorted_merge_sort. intros p q.
    rewrite !Is_true_true. apply path_leb_total.
Qed.

(** The extensions the program knows, with and without SVG support. *)
Lemma supported_formats_shape ext :
  ext ∈ SUPPORTED_FORMATS →
  Str.extension_shape ext = true ∧ Str.extension_shape (Str.upper ext) = true
  ∧ Str.lower ext = ext ∧ Str.lower (Str.upper ext) = ext.
Proof.
  unfold SUPPORTED_FORMATS. rewrite elem_of_app.
  intros [Hext|Hext].
  - repeat (apply elem_of_cons in Hext as [->|Hext]; [by vm_compute|]).
    by apply elem_of_nil in Hext.
  - destruct SVG_SUPPORT; [|by apply elem_of_nil in Hext].
    apply list_elem_of_singleton in Hext as ->. by vm_compute.
Qed.

Lemma glob_match_name root recursive ext p :
  glob_match root recursive ext p = true →
  ∃ pre, PurePath.name p = pre +:+ ext.
Proof.
  unfold glob_match. destruct (PurePath.strip_prefix root p) as [[|c rel]|];
    try done.
  intros [_ Hends]%andb_true_iff. by apply ends_with_app.
Qed.

Lemma bare_extension_spec name :
  bare_extension name = true
  ↔ ∃ ext, ext ∈ SUPPORTED_FORMATS ∧ (name = ext ∨ name = Str.upper ext).
Proof.
  unfold bare_extension.
  rewrite bool_decide_eq_true, elem_of_app, list_elem_of_fmap. split.
  - intros [?|(ext & -> & ?)]; eauto.
  - intros (ext & Hext & [->| ->]); eauto.
Qed.

(** Whatever [find_images] returns has a supported extension, or is
    named by an extension alone. *)
Lemma find_images_supported root recursive fs p :
  p ∈ find_images root recursive fs →
  supported (Str.lower (PurePath.suffix p)) = true
  ∨ bare_extension (PurePath.name p) = true.
Proof.
  rewrite elem_of_find_images, bare_extension_spec.
  destruct (FS.is_file root fs).
  - intros [-> ?]. by left.
  - intros (_ & _ & ext & Hext & Hm).
    destruct (supported_formats_shape ext Hext) as (Hs & Hsu & Hl & Hlu).
    destruct Hm as [Hm|Hm]; apply glob_match_name in Hm as [pre Hname];
      (destruct (decide (pre = "")) as [->|Hpre];
       [right; exists ext; auto | left]).
    + destruct (suffix_extension p pre ext) as [-> _]; try done.
      rewrite Hl. by apply bool_decide_eq_true.
    + destruct (suffix_extension p pre (Str.upper ext)) as [-> _];
        try done.
      rewrite Hlu. by apply bool_decide_eq_true.
Qed.
(** The walk of a directory finds the entries below it named with a
    supported extension in lower case or in upper case: those directly in
    it, and with [recursive] those at any depth. *)
Lemma find_images_finds root recursive fs rel name ext :
  FS.is_dir root fs = true →
  FS.mem (root ++ rel ++ [name]) fs = true →
  recursive = true ∨ rel = [] →
  ext ∈ SUPPORTED_FORMATS →
  Str.ends_with name ext = true ∨ Str.ends_with name (Str.upper ext) = true →
  root ++ rel ++ [name] ∈ find_images root recursive fs.
Proof.
  intros Hdir Hmem Hdepth Hext Hname. rewrite elem_of_find_images.
  assert (FS.is_file root fs = false) as ->.
  { unfold FS.is_dir, FS.is_file in *. by destruct (fs !! root) as [[]|]. }
  split_and!; [done..|]. exists ext. split; [done|].
  assert (∀ e, Str.ends_with name e = true →
               glob_match root recursive e (root ++ rel ++ [name]) = true)
    as Hmatch.
  { intros e He. unfold glob_match.
    rewrite (proj2 (strip_prefix_Some root _ (rel ++ [name])) eq_refl).
    assert (PurePath.name (root ++ rel ++ [name]) = name) as ->
      by (by rewrite app_assoc, name_snoc).
    rewrite He. destruct Hdepth as [->| ->]; [by destruct rel|].
    by destruct recursive. }
  destruct Hname; auto.
Qed.
End walker.

(** * Facts about [process_file] and the converters *)

Section process_facts.
Context `{Collaborators}.
Implicit Types (fs : filesystem) (p q : path).

Lemma io_bind_eq {A B} (m : io A) (k : A → io B) fs :
  io_bind m k fs
  = match m fs with
    | (Ok a, fs') => k a fs'
    | (Raise e, fs') => (Raise e, fs')
    end.
Proof. reflexivity. Qed.

Lemma stat_eq p fs :
  FS.stat p fs
  = (match fs !! p with
     | Some n => Ok (node_stat n)
     | None => Raise FileNotFoundError
     end, fs).
Proof. reflexivity. Qed.

(** The percentage never raises: the division is guarded. *)
Lemma size_reduction_ok o n :
  size_reduction o n
  = Ok (if 0 <? o then (Qmake (o - n) (Z.to_pos o) * 100)%Q else 0%Q).
Proof.
  unfold size_reduction, true_div.
  destruct (Z.ltb_spec 0 o) as [Ho|Ho]; [|done].
  destruct (Z.eqb_spec o 0); [lia|].
  by rewrite Z.sgn_pos, Z.mul_1_r, Z.abs_eq by lia.
Qed.




(** [convert_image_to_webp], step by step. *)
Lemma convert_image_to_webp_eq i o quality fs :
  convert_image_to_webp i o quality fs
  = match Image_open i fs with
    | Raise _ => (Ok false, fs)
    | Ok img =>
        match normalise img with
        | Raise _ => (Ok false, fs)
        | Ok img' =>
            match Image_save img' o quality fs with
            | (Ok _, fs') => (Ok true, fs')
            | (Raise _, fs') => (Ok false, fs')
            end
        end
    end.
Proof.
  unfold convert_image_to_webp, io_try, io_bind, io_read, lift, io_ret.
  destruct (Image_open i fs) as [img|e]; [|done].
  destruct (normalise img) as [img'|e]; [|done].
  by destruct (Image_save img' o quality fs) as [[[]|e] fs'].
Qed.

Lemma convert_svg_to_webp_eq i o quality scale fs :
  convert_svg_to_webp i o quality scale fs
  = if negb SVG_SUPPORT then (Ok false, fs)
    else
      match svg2png i scale fs with
      | Raise _ => (Ok false, fs)
      | Ok png =>
          match Image_open_bytes png with
          | Raise _ => (Ok false, fs)
          | Ok img =>
              match normalise img with
              | Raise _ => (Ok false, fs)
              | Ok img' =>
                  match Image_save img' o quality fs with
                  | (Ok _, fs') => (Ok true, fs')
                  | (Raise _, fs') => (Ok false, fs')
                  end
              end
          end
      end.
Proof.
  unfold convert_svg_to_webp, io_try, io_bind, io_read, lift, io_ret.
  destruct (negb SVG_SUPPORT); [done|].
  destruct (svg2png i scale fs) as [png|e]; [|done].
  destruct (Image_open_bytes png) as [img|e]; [|done].
  destruct (normalise img) as [img'|e]; [|done].
  by destruct (Image_save img' o quality fs) as [[[]|e] fs'].
Qed.

(** [process_file] through its two halves. *)
Lemma process_file_eq file out quality scale ks base del :
  process_file file out quality scale ks base del
  = if negb (supported (Str.lower (PurePath.suffix file))) then
      io_ret (false, Skipped (PurePath.name file))
    else
      (output_path <- get_output_path file out ks base;;
       up_to_date <- check_up_to_date output_path file;;
       if (up_to_date : bool) then
         io_ret (true, AlreadyConverted (PurePath.name file))
       else
         success <-
           (if String.eqb (Str.lower (PurePath.suffix file)) ".svg" then
              convert_svg_to_webp file output_path quality scale
            else convert_image_to_webp file output_path quality);;
         report_conversion file output_path del success)%io.
Proof. reflexivity. Qed.

Lemma check_up_to_date_eq output file fs :
  check_up_to_date output file fs
  = match fs !! output with
    | None => (Ok false, fs)
    | Some out_node =>
        match fs !! file with
        | None => (Raise FileNotFoundError, fs)
        | Some in_node =>
            (Ok (st_mtime (node_stat in_node)
                 <? st_mtime (node_stat out_node)), fs)
        end
    end.
Proof.
  unfold check_up_to_date, FS.exists_, FS.mem, io_read.
  rewrite io_bind_eq. destruct (fs !! output) as [no|] eqn:Eo; [|done].
  rewrite io_bind_eq, stat_eq, Eo, io_bind_eq, stat_eq.
  by destruct (fs !! file).
Qed.

Lemma report_conversion_eq file output del success fs :
  report_conversion file output del success fs
  = if success then
      match fs !! file, fs !! output with
      | Some in_node, Some out_node =>
          let o := st_size (node_stat in_node) in
          let n := st_size (node_stat out_node) in
          let info :=
            {| original_size := o; new_size := n;
               reduction := if 0 <? o
                            then (Qmake (o - n) (Z.to_pos o) * 100)%Q
                            else 0%Q |} in
          let name := PurePath.name file in
          let out_name := PurePath.name output in
          if del then
            match in_node with
            | File _ =>
                (Ok (true, ConvertedRemoved name out_name info),
                 delete file fs)
            | Dir _ =>
                (Ok (true, ConvertedNotRemoved name out_name info
                             IsADirectoryError), fs)
            end
          else (Ok (true, Converted name out_name info), fs)
      | _, _ => (Raise FileNotFoundError, fs)
      end
    else (Ok (false, NoMessage), fs).
Proof.
  unfold report_conversion. destruct success; [|done].
  rewrite io_bind_eq, stat_eq.
  destruct (fs !! file) as [ni|] eqn:Ei; [|done].
  rewrite io_bind_eq, stat_eq.
  destruct (fs !! output) as [no|] eqn:Eo; [|done].
  rewrite io_bind_eq. unfold lift. rewrite size_reduction_ok.
  cbv zeta. destruct del; [|done].
  unfold io_try, FS.unlink. rewrite io_bind_eq, Ei. by destruct ni.
Qed.
(** The two ways a converter ends, as [conversion_effect]s. *)
Lemma save_effect img output quality fs :
  conversion_effect output quality fs
    (match Image_save img output quality fs with
     | (Ok _, fs') => (Ok true, fs')
     | (Raise _, fs') => (Ok false, fs')
     end).
Proof.
  pose proof (Image_save_frame img output quality fs) as Hframe.
  pose proof (Image_save_file img output quality fs) as Hfile.
  destruct (Image_save img output quality fs) as [[[]|e] fs'] eqn:Es;
    simpl in *; (split_and!; [by eexists|done|..]).
  - auto.
  - done.
  - done.
  - intros _. right. by exists img, e.
Qed.

Lemma no_effect output quality fs :
  conversion_effect output quality fs (Ok false, fs).
Proof. split_and!; [by eexists|done|done|by left]. Qed.

End process_facts.

(** * Facts about exceptions and the driver *)

Section driver_facts.
Context `{Collaborators}.
Implicit Types (fs : filesystem) (p q : path).

(** [mkdir] returns when no regular file is at the path or above it. *)
Lemma mkdir_from_returns done todo fs :
  (∀ q, q `prefix_of` done ++ todo → FS.is_file q fs = false) →
  (FSOps.mkdir_from done todo fs).1 = Ok tt.
Proof.
  revert done fs. induction todo as [|c todo IH]; intros done fs Hfree.
  - simpl. unfold FSOps.ensure_dir.
    specialize (Hfree done). rewrite app_nil_r in Hfree.
    unfold FS.is_file in Hfree.
    destruct (fs !! done) as [[]|]; try done. by specialize (Hfree ltac:(done)).
  - simpl. rewrite io_bind_eq. unfold FSOps.ensure_dir at 1.
    pose proof (Hfree done (prefix_app_r _ _ _ (reflexivity _))) as Hdone.
    unfold FS.is_file in Hdone.
    destruct (fs !! done) as [[]|] eqn:Ed; try done.
    + apply IH. intros q Hq. apply Hfree. by rewrite <- app_assoc in Hq.
    + apply IH. intros q Hq. unfold FS.is_file.
      destruct (decide (q = done)) as [->|Hne].
      * by rewrite lookup_insert_eq.
      * rewrite lookup_insert_ne by done. apply Hfree.
        by rewrite <- app_assoc in Hq.
Qed.

Lemma mkdir_returns p fs :
  (∀ q, q `prefix_of` p → FS.is_file q fs = false) →
  (FSOps.mkdir p fs).1 = Ok tt.
Proof. apply (mkdir_from_returns [] p). Qed.



Lemma process_file_unsupported file out quality scale ks base del fs :
  supported (Str.lower (PurePath.suffix file)) = false →
  process_file file out quality scale ks base del fs
  = (Ok (false, Skipped (PurePath.name file)), fs).
Proof. intros Hs. by rewrite process_file_eq, Hs. Qed.

(** The pre-flight checks of [main]. *)
Lemma main_preflight script_dir a fs :
  FS.mem (run_input script_dir a) fs = false
  ∨ ¬ (1 ≤ arg_quality a ≤ 100) →
  main script_dir a fs = (Exit 1, fs).
Proof.
  intros Hbad. unfold main.
  destruct (FS.mem (run_input script_dir a) fs); [|done].
  destruct Hbad as [?|Hq]; [done|]. simpl.
  destruct (Z.leb_spec 1 (arg_quality a)), (Z.leb_spec (arg_quality a) 100);
    simpl; try done. lia.
Qed.

Lemma main_after_preflight script_dir a fs :
  FS.mem (run_input script_dir a) fs = true →
  1 ≤ arg_quality a ≤ 100 →
  main script_dir a fs
  = match make_output_dir (run_output script_dir a) fs with
    | (Raise e, fs') => (Uncaught e, fs')
    | (Ok _, fs') =>
        match find_images (run_input script_dir a) (arg_recursive a) fs' with
        | [] => (Exit 0, fs')
        | images =>
            process_images images a (run_output script_dir a)
              (if FS.is_dir (run_input script_dir a) fs'
               then run_input script_dir a
               else PurePath.parent (run_input script_dir a))
              (run_delete a) (0%nat, 0%nat) fs'
        end
    end.
Proof.
  intros Hin [Hq1 Hq2]. unfold main. rewrite Hin. simpl.
  destruct (Z.leb_spec 1 (arg_quality a)); [|lia].
  destruct (Z.leb_spec (arg_quality a) 100); [|lia]. simpl.
  destruct (make_output_dir _ fs) as [[[]|e] fs']; [|done].
  by destruct (find_images _ _ fs').
Qed.
End driver_facts.

(** * The claims of the specification *)

Lemma pair_fst_eq {A B} (x : A * B) (a : A) : x.1 = a → x = (a, x.2).
Proof. destruct x. simpl. by intros ->. Qed.

Section claims.
Context `{Collaborators}.
Implicit Types (fs : filesystem) (p q : path).

(** C1, amended.  A file whose lower-cased extension is not supported is
    left out by [find_images], unless its whole name is a supported
    extension; [process_file] returns [False] for it with the "Skipped
    (unsupported)" message and changes nothing; the driver has two
    counters only and counts that result as failed. *)
Theorem unsupported_file_is_skipped_and_counted_failed file :
  supported (Str.lower (PurePath.suffix file)) = false →
  (∀ root recursive fs,
     bare_extension (PurePath.name file) = false →
     file ∉ find_images root recursive fs)
  ∧ (∀ out quality scale ks base del fs,
       process_file file out quality scale ks base del fs
       = (Ok (false, Skipped (PurePath.name file)), fs))
  ∧ (∀ counts,
       tally counts (false, Skipped (PurePath.name file))
       = (counts.1, S counts.2)).
Proof.
  intros Hs. split_and!.
  - intros root recursive fs Hbare Hin.
    apply find_images_supported in Hin as [?|?]; congruence.
  - intros. by apply process_file_unsupported.
  - done.
Qed.


(** C3.  An input whose output path already exists with a strictly newer
    modification time is reported as already converted, with success; the
    input and the output are left as they were, nothing that existed is
    changed or removed, and the only entries that can be new are
    directories made while the output path was resolved (none, in a
    well-formed file system, since the output's directory is there). *)
Theorem up_to_date_output_is_kept
    file out quality scale ks base del fs output_path fs1 in_node out_node :
  supported (Str.lower (PurePath.suffix file)) = true →
  get_output_path file out ks base fs = (Ok output_path, fs1) →
  fs !! file = Some in_node →
  fs !! output_path = Some out_node →
  st_mtime (node_stat in_node) < st_mtime (node_stat out_node) →
  process_file file out quality scale ks base del fs
  = (Ok (true, AlreadyConverted (PurePath.name file)), fs1)
  ∧ fs1 !! file = Some in_node
  ∧ fs1 !! output_path = Some out_node
  ∧ (∀ q n, fs !! q = Some n → fs1 !! q = Some n)
  ∧ (∀ q, fs !! q = None →
          fs1 !! q = None ∨ fs1 !! q = Some (Dir new_dir_stat))
  ∧ (FS.well_formed fs → fs1 = fs).
Proof.
  intros Hs Hg Hin Hout Hnewer.
  destruct (get_output_path_effect _ _ _ _ _ _ _ Hg) as (target & Hadd & Hp).
  assert (∀ q n, fs !! q = Some n → fs1 !! q = Some n) as Hkeep
    by (intros q n; by eapply only_adds_dirs_keeps).
  split_and!; auto.
  - rewrite process_file_eq, Hs. simpl.
    rewrite io_bind_eq, Hg, io_bind_eq, check_up_to_date_eq.
    rewrite (Hkeep _ _ Hout), (Hkeep _ _ Hin).
    by replace (_ <? _) with true by (symmetry; by apply Z.ltb_lt).
  - intros q Hq. destruct (Hadd q) as [->|(_ & ? & _)]; auto.
  - intros Hwf. destruct out as [o|].
    + destruct ks, base as [b|];
        try (rewrite get_output_path_flat in Hg by auto; congruence).
      rewrite get_output_path_mirror in Hg.
      destruct (PurePath.strip_prefix b (PurePath.parent file)) as [rel|];
        [|done].
      destruct (FSOps.mkdir (o ++ rel) fs) as [[[]|e] fs2] eqn:Em; [|done].
      injection Hg as <- <-.
      rewrite mkdir_existing in Em; [congruence|done|].
      by eapply (well_formed_above fs (o ++ rel) [_]).
    + rewrite get_output_path_beside in Hg. congruence.
Qed.


(** C5. The destination [get_output_path] computes: beside the input with
    the extension replaced when there is no output directory; directly in
    the output directory when structure is not kept; under the output
    directory at the input's place relative to the base root when it is,
    as in the scenario of [/in/sub/x.png] going to [/out/sub/x.webp]. *)
Theorem get_output_path_destination input :
  (∀ ks base fs,
     PurePath.name input ≠ "" →
     get_output_path input None ks base fs
     = (Ok (PurePath.parent input ++ [PurePath.stem input +:+ ".webp"]), fs))
  ∧ (∀ o base fs,
       get_output_path input (Some o) false base fs
       = (Ok (o ++ [PurePath.stem input +:+ ".webp"]), fs))
  ∧ (∀ o b rel fs fs',
       PurePath.parent input = b ++ rel →
       FSOps.mkdir (o ++ rel) fs = (Ok tt, fs') →
       get_output_path input (Some o) true (Some b) fs
       = (Ok (o ++ rel ++ [PurePath.stem input +:+ ".webp"]), fs'))
  ∧ (∀ fs fs',
       FSOps.mkdir ["out"; "sub"] fs = (Ok tt, fs') →
       get_output_path ["in"; "sub"; "x.png"] (Some ["out"]) true
         (Some ["in"]) fs
       = (Ok ["out"; "sub"; "x.webp"], fs')).
Proof.
  split_and!.
  - intros ks base fs Hname.
    by rewrite get_output_path_beside, with_suffix_webp_stem.
  - intros o base fs. by apply get_output_path_flat; left.
  - intros o b rel fs fs' Hrel Hmk. rewrite get_output_path_mirror.
    apply strip_prefix_Some in Hrel as ->. rewrite Hmk.
    by rewrite <- app_assoc.
  - intros fs fs' Hmk. rewrite get_output_path_mirror. simpl.
    by rewrite Hmk.
Qed.

(** C6.  [find_images] on a directory holding [a.Png]: the file has a
    supported extension, and is found when it is the root itself, but the
    walk of the directory, recursive or not, misses it. *)
Theorem find_images_misses_mixed_case_extension :
  supported (Str.lower (PurePath.suffix ["in"; "a.Png"])) = true
  ∧ FS.is_file ["in"; "a.Png"] Toy.fs_mixed = true
  ∧ find_images ["in"; "a.Png"] false Toy.fs_mixed = [["in"; "a.Png"]]
  ∧ find_images ["in"] false Toy.fs_mixed = []
  ∧ find_images ["in"] true Toy.fs_mixed = [].
Proof.
  unfold find_images, supported, glob, SUPPORTED_FORMATS.
  destruct SVG_SUPPORT; by vm_compute.
Qed.


(** C8.  A quality outside 1..100 ends the run with exit code 1 and the
    file system untouched; a run that gets as far as the walk and finds no
    image ends with exit code 0. *)
Theorem quality_check_and_empty_walk_exit_codes script_dir a fs :
  (¬ (1 ≤ arg_quality a ≤ 100) →
   main script_dir a fs = (Exit 1, fs)
   ∧ exit_code (main script_dir a fs).1 = 1)
  ∧ ∀ fs1,
      FS.mem (run_input script_dir a) fs = true →
      1 ≤ arg_quality a ≤ 100 →
      make_output_dir (run_output script_dir a) fs = (Ok tt, fs1) →
      find_images (run_input script_dir a) (arg_recursive a) fs1 = [] →
      main script_dir a fs = (Exit 0, fs1)
      ∧ exit_code (main script_dir a fs).1 = 0.
Proof.
  split.
  - intros Hq. by rewrite main_preflight by auto.
  - intros fs1 Hin Hq Hout Hnone.
    by rewrite main_after_preflight, Hout, Hnone.
Qed.


(** C10. With an output directory and [keep_structure] set but no base
    input root, [get_output_path] returns [output_dir/<stem>.webp], the
    same as with [keep_structure] unset, raises nothing and leaves the file
    system as it is. *)
Theorem keep_structure_without_base_flattens input o base fs :
  get_output_path input (Some o) true None fs
  = (Ok (o ++ [PurePath.stem input +:+ ".webp"]), fs)
  ∧ get_output_path input (Some o) true None fs
    = get_output_path input (Some o) false base fs.
Proof. by destruct base. Qed.

End claims.

(** * Further facts and properties of the code *)

Lemma ascii_compare_lt_trans a b c :
  Ascii.compare a b = Lt → Ascii.compare b c = Lt → Ascii.compare a c = Lt.
Proof.
  unfold Ascii.compare. rewrite !N.compare_lt_iff. lia.
Qed.

Lemma string_compare_lt_trans s1 s2 s3 :
  String.compare s1 s2 = Lt → String.compare s2 s3 = Lt →
  String.compare s1 s3 = Lt.
Proof.
  revert s2 s3. induction s1 as [|a s1 IH]; intros [|b s2] [|c s3];
    simpl; try done.
  destruct (Ascii.compare a b) eqn:Eab; try done;
    destruct (Ascii.compare b c) eqn:Ebc; try done; intros H12 H23.
  - apply Ascii.compare_eq_iff in Eab as ->. rewrite Ebc. by eapply IH.
  - apply Ascii.compare_eq_iff in Eab as ->. by rewrite Ebc.
  - apply Ascii.compare_eq_iff in Ebc as <-. by rewrite Eab.
  - by rewrite (ascii_compare_lt_trans a b c).
Qed.

Lemma path_leb_trans (p q r : path) :
  path_leb p q = true → path_leb q r = true → path_leb p r = true.
Proof.
  revert q r. induction p as [|a p IH]; intros [|b q] [|c r]; simpl;
    try done.
  destruct (String.compare a b) eqn:Eab; try done;
    destruct (String.compare b c) eqn:Ebc; try done; intros H12 H23.
  - apply String.compare_eq_iff in Eab as ->. rewrite Ebc. by eapply IH.
  - apply String.compare_eq_iff in Eab as ->. by rewrite Ebc.
  - apply String.compare_eq_iff in Ebc as <-. by rewrite Eab.
  - by rewrite (string_compare_lt_trans a b c).
Qed.

Section walker_properties.
Context `{Collaborators}.
Implicit Types (fs : filesystem) (p q : path).

Lemma glob_match_below root recursive ext p :
  glob_match root recursive ext p = true →
  ∃ rel name,
    p = root ++ rel ++ [name] ∧ (recursive = true ∨ rel = [])
    ∧ Str.ends_with name ext = true.
Proof.
  unfold glob_match.
  destruct (PurePath.strip_prefix root p) as [[|c rel]|] eqn:Es; try done.
  apply strip_prefix_Some in Es as ->.
  intros [Hdepth Hname]%andb_true_iff.
  exists (removelast (c :: rel)), (List.last (c :: rel) "").
  assert (c :: rel = removelast (c :: rel) ++ [List.last (c :: rel) ""])
    as Hsplit by (by apply app_removelast_last).
  split_and!.
  - by rewrite <- Hsplit.
  - apply orb_true_iff in Hdepth as [?|Hrel%bool_decide_eq_true]; [by left|].
    right. by rewrite Hrel.
  - revert Hname. unfold PurePath.name.
    rewrite Hsplit at 1. rewrite app_assoc. by rewrite List.last_last.
Qed.

(** X1.  What [find_images] returns exists.  For a file root it is the root
    itself; for a directory root it lies below the root, directly below
    unless [recursive], and its name ends with a supported extension in
    lower case or in upper case. *)
Theorem find_images_sound root recursive fs p :
  p ∈ find_images root recursive fs →
  FS.mem p fs = true
  ∧ (p = root ∧ FS.is_file root fs = true
     ∨ FS.is_dir root fs = true
       ∧ ∃ rel name ext,
           p = root ++ rel ++ [name] ∧ (recursive = true ∨ rel = [])
           ∧ ext ∈ SUPPORTED_FORMATS
           ∧ (Str.ends_with name ext = true
              ∨ Str.ends_with name (Str.upper ext) = true)).
Proof.
  rewrite elem_of_find_images. destruct (FS.is_file root fs) eqn:Ef.
  - intros [-> _]. split; [|by left].
    unfold FS.is_file, FS.mem in *. by destruct (fs !! root).
  - intros (Hd & Hm & ext & Hext & Hmatch). split; [done|]. right.
    split; [done|].
    destruct Hmatch as [Hg|Hg];
      apply glob_match_below in Hg as (rel & name & -> & Hdepth & Hname);
      exists rel, name, ext; auto.
Qed.

(** X3.  The result of [find_images] has no duplicates and is in
    increasing order of paths. *)
Theorem find_images_sorted_without_duplicates root recursive fs :
  NoDup (find_images root recursive fs)
  ∧ StronglySorted (λ p q, path_leb p q = true ∧ p ≠ q)
      (find_images root recursive fs).
Proof.
  split; [apply find_images_NoDup|].
  assert (StronglySorted (λ p q, Is_true (path_leb p q))
            (find_images root recursive fs)) as Hsorted.
  { unfold find_images. destruct (FS.is_file root fs).
    - destruct (supported _); repeat constructor.
    - apply StronglySorted_merge_sort.
      + intros p q r. rewrite !Is_true_true. apply path_leb_trans.
      + intros p q. rewrite !Is_true_true. apply path_leb_total. }
  pose proof (find_images_NoDup root recursive fs) as Hnodup.
  induction Hsorted as [|p l Hl IH Hall]; [constructor|].
  apply NoDup_cons in Hnodup as [Hp Hnodup].
  constructor; [by apply IH|].
  apply Forall_forall. intros q Hq. split.
  - apply Is_true_true. by eapply Forall_forall in Hall.
  - intros ->. done.
Qed.

(** X4.  Whatever the walk of the top level finds, the recursive walk
    finds too. *)
Theorem find_images_recursive_finds_more root fs p :
  p ∈ find_images root false fs → p ∈ find_images root true fs.
Proof.
  rewrite !elem_of_find_images. destruct (FS.is_file root fs); [done|].
  intros (Hd & Hm & ext & Hext & Hmatch). split_and!; [done..|].
  exists ext. split; [done|].
  assert (∀ e, glob_match root false e p = true →
               glob_match root true e p = true) as Hmono.
  { intros e. unfold glob_match.
    destruct (PurePath.strip_prefix root p) as [[|c rel]|]; try done.
    by intros [_ ->]%andb_true_iff. }
  destruct Hmatch; auto.
Qed.

(** X5.  On a root that does not exist [find_images] returns the empty
    list. *)
Theorem find_images_of_missing_root root recursive fs :
  FS.mem root fs = false → find_images root recursive fs = [].
Proof.
  intros Hroot. apply elem_of_nil_inv. intros p.
  rewrite elem_of_find_images. unfold FS.mem, FS.is_file, FS.is_dir in *.
  destruct (fs !! root); [done|]. by intros [? _].
Qed.
End walker_properties.

Lemma str_take_drop n s : Str.take n s +:+ Str.drop n s = s.
Proof.
  revert s. induction n as [|n IH]; intros [|a s]; try done.
  cbn [Str.take Str.drop]. by rewrite str_append_cons, IH.
Qed.

(** A name is its stem followed by its suffix. *)
Lemma stem_suffix (p : path) :
  PurePath.name p = PurePath.stem p +:+ PurePath.suffix p.
Proof.
  unfold PurePath.stem, PurePath.suffix.
  destruct (_ && _); [by rewrite str_take_drop|].
  generalize (PurePath.name p). intros s.
  induction s as [|a s IH]; [done|]. by rewrite str_append_cons, <- IH.
Qed.

Lemma ends_with_self_append (s e : string) :
  Str.ends_with (s +:+ e) e = true.
Proof. apply ends_with_app. by exists s. Qed.

(** A name that ends with [".webp"] has no supported extension. *)
Lemma webp_suffix (p : path) pre :
  PurePath.name p = pre +:+ ".webp" →
  PurePath.suffix p = (if Str.is_empty pre then "" else ".webp").
Proof.
  intros Hname. destruct pre as [|a pre].
  - unfold PurePath.suffix. by rewrite Hname.
  - by destruct (suffix_extension p (String a pre) ".webp") as [-> _].
Qed.

Section stage_facts.
Context `{Collaborators}.
Implicit Types (fs : filesystem) (p q : path).

Lemma webp_not_supported : supported ".webp" = false ∧ supported "" = false.
Proof.
  unfold supported, SUPPORTED_FORMATS. by destruct SVG_SUPPORT.
Qed.

Lemma ends_with_webp_unsupported p :
  Str.ends_with (PurePath.name p) ".webp" = true →
  supported (Str.lower (PurePath.suffix p)) = false.
Proof.
  intros [pre Hname]%ends_with_app. rewrite (webp_suffix p pre Hname).
  destruct webp_not_supported. by destruct (Str.is_empty pre).
Qed.

(** The name of what [get_output_path] returns is the stem of the input
    followed by [".webp"]. *)
Lemma get_output_path_name input out ks base fs output fs' :
  get_output_path input out ks base fs = (Ok output, fs') →
  PurePath.name output = PurePath.stem input +:+ ".webp".
Proof.
  destruct out as [o|].
  - destruct ks, base as [b|];
      try (rewrite get_output_path_flat by auto; intros [= <- _];
           by rewrite name_snoc).
    rewrite get_output_path_mirror.
    destruct (PurePath.strip_prefix b (PurePath.parent input)) as [rel|];
      [|done].
    destruct (FSOps.mkdir (o ++ rel) fs) as [[[]|e] fs1]; [|done].
    intros [= <- _]. by rewrite name_snoc.
  - rewrite get_output_path_beside. intros [= Hw _]. revert Hw.
    destruct (decide (PurePath.name input = "")) as [Hn|Hn].
    + unfold with_suffix_webp. by rewrite Hn.
    + rewrite with_suffix_webp_stem by done. intros [= <-].
      by rewrite name_snoc.
Qed.

Lemma convert_image_to_webp_effect input output quality fs :
  conversion_effect output quality fs
    (convert_image_to_webp input output quality fs).
Proof.
  rewrite convert_image_to_webp_eq.
  destruct (Image_open input fs) as [img|e]; [|apply no_effect].
  destruct (normalise img) as [img'|e]; [|apply no_effect].
  apply save_effect.
Qed.

Lemma convert_svg_to_webp_effect input output quality scale fs :
  conversion_effect output quality fs
    (convert_svg_to_webp input output quality scale fs).
Proof.
  rewrite convert_svg_to_webp_eq.
  destruct (negb SVG_SUPPORT); [apply no_effect|].
  destruct (svg2png input scale fs) as [png|e]; [|apply no_effect].
  destruct (Image_open_bytes png) as [img|e]; [|apply no_effect].
  destruct (normalise img) as [img'|e]; [|apply no_effect].
  apply save_effect.
Qed.

Lemma process_file_stages file out quality scale ks base del fs r fs' :
  supported (Str.lower (PurePath.suffix file)) = true →
  process_file file out quality scale ks base del fs = (r, fs') →
  stage fs file out quality scale ks base del r fs'.
Proof.
  intros Hs. rewrite process_file_eq, Hs. simpl. rewrite io_bind_eq.
  destruct (get_output_path file out ks base fs) as [[output|e] fs1] eqn:Eg;
    [|intros [= <- <-]; by constructor].
  rewrite io_bind_eq, check_up_to_date_eq.
  assert (∀ r fs',
    (fs1 !! output = None
     ∨ ∃ n_out n_in, fs1 !! output = Some n_out ∧ fs1 !! file = Some n_in
         ∧ st_mtime (node_stat n_out) ≤ st_mtime (node_stat n_in)) →
    (success <-
       (if String.eqb (Str.lower (PurePath.suffix file)) ".svg" then
          convert_svg_to_webp file output quality scale
        else convert_image_to_webp file output quality);;
     report_conversion file output del success)%io fs1 = (r, fs') →
    stage fs file out quality scale ks base del r fs') as Hconv.
  { clear r fs'. intros r fs' Hold. rewrite io_bind_eq.
    destruct (String.eqb _ _).
    - pose proof (convert_svg_to_webp_effect file output quality scale fs1)
        as Heff.
      destruct (convert_svg_to_webp _ _ _ _ _) as [[b|e] fs2];
        [|by destruct Heff as [[? ?] _]].
      intros Hr. by eapply stage_converted.
    - pose proof (convert_image_to_webp_effect file output quality fs1)
        as Heff.
      destruct (convert_image_to_webp _ _ _ _) as [[b|e] fs2];
        [|by destruct Heff as [[? ?] _]].
      intros Hr. by eapply stage_converted. }
  destruct (fs1 !! output) as [n_out|] eqn:Eo.
  - destruct (fs1 !! file) as [n_in|] eqn:Ei.
    + destruct (Z.ltb_spec (st_mtime (node_stat n_in))
                  (st_mtime (node_stat n_out))).
      * intros [= <- <-]. by eapply stage_up_to_date.
      * apply Hconv. right. by exists n_out, n_in.
    + intros [= <- <-]. by eapply stage_stat_raised.
  - apply Hconv. by left.
Qed.
End stage_facts.

Section frame_facts.
Context `{Collaborators}.
Implicit Types (fs : filesystem) (p q : path).

(** A supported file is never its own output. *)
Lemma output_is_not_the_input file out ks base fs output fs1 :
  supported (Str.lower (PurePath.suffix file)) = true →
  get_output_path file out ks base fs = (Ok output, fs1) →
  output ≠ file.
Proof.
  intros Hs Hg ->. apply get_output_path_name in Hg.
  rewrite ends_with_webp_unsupported in Hs; [done|].
  rewrite Hg. apply ends_with_self_append.
Qed.

Lemma get_output_path_keeps file out ks base fs r fs1 p n :
  get_output_path file out ks base fs = (r, fs1) →
  fs !! p = Some n → fs1 !! p = Some n.
Proof.
  intros Hg Hp.
  destruct (get_output_path_effect _ _ _ _ _ _ _ Hg) as (target & Hadd & _).
  by eapply only_adds_dirs_keeps.
Qed.

(** [process_file] leaves an entry as it is unless the entry is named
    like an output, or is the source and deletion is asked for. *)
Lemma process_file_keeps file out quality scale ks base del fs r fs' p n :
  process_file file out quality scale ks base del fs = (r, fs') →
  fs !! p = Some n →
  Str.ends_with (PurePath.name p) ".webp" = false →
  p ≠ file ∨ del = false →
  fs' !! p = Some n.
Proof.
  intros Hp Hn Hwebp Hother.
  destruct (supported (Str.lower (PurePath.suffix file))) eqn:Hs;
    [|rewrite process_file_unsupported in Hp by done; congruence].
  apply process_file_stages in Hp; [|done].
  destruct Hp as [e fs1 Hg|output fs1 Hg _ _|output fs1 n_out n_in Hg _ _ _
                 |output fs1 success fs2 r fs' Hg _ Heff Hrep];
    try by eapply get_output_path_keeps.
  assert (fs2 !! p = Some n) as Hp2.
  { destruct Heff as (_ & Hframe & _). simpl in Hframe. rewrite Hframe.
    - by eapply get_output_path_keeps.
    - intros ->. apply get_output_path_name in Hg.
      by rewrite Hg, ends_with_self_append in Hwebp. }
  rewrite report_conversion_eq in Hrep. destruct success; [|congruence].
  destruct (fs2 !! file) as [n_in|] eqn:Ei, (fs2 !! output) as [n_out|];
    try congruence.
  cbv zeta in Hrep. destruct del; [|congruence].
  destruct Hother as [Hne|?]; [|done].
  destruct n_in; injection Hrep as <- <-; [|done].
  by rewrite lookup_delete_ne.
Qed.
End frame_facts.

Section process_properties.
Context `{Collaborators}.
Implicit Types (fs : filesystem) (p q : path).

(** X9.  [process_file] removes its source only when it reports
    "Converted & removed", and then the source is gone; with any other
    result, an exception included, the source is as it was. *)
Theorem process_file_source_fate
    file out quality scale ks base del fs r fs' n :
  fs !! file = Some n →
  process_file file out quality scale ks base del fs = (r, fs') →
  match r with
  | Ok (_, ConvertedRemoved _ _ _) => del = true ∧ fs' !! file = None
  | _ => fs' !! file = Some n
  end.
Proof.
  intros Hn Hp.
  destruct (supported (Str.lower (PurePath.suffix file))) eqn:Hs;
    [|rewrite process_file_unsupported in Hp by done;
      by injection Hp as <- <-].
  apply process_file_stages in Hp; [|done].
  destruct Hp as [e fs1 Hg|output fs1 Hg _ Hnone|output fs1 n_out n_in Hg _ _ _
                 |output fs1 success fs2 r fs' Hg _ Heff Hrep].
  - by eapply get_output_path_keeps.
  - by rewrite (get_output_path_keeps _ _ _ _ _ _ _ _ _ Hg Hn) in Hnone.
  - by eapply get_output_path_keeps.
  - assert (fs2 !! file = Some n) as Hn2.
    { destruct Heff as (_ & Hframe & _). simpl in Hframe. rewrite Hframe.
      - by eapply get_output_path_keeps.
      - intros Heq. by eapply output_is_not_the_input. }
    rewrite report_conversion_eq, Hn2 in Hrep.
    destruct success; [|by injection Hrep as <- <-].
    destruct (fs2 !! output) as [n_out|]; [|by injection Hrep as <- <-].
    cbv zeta in Hrep. destruct del; [|by injection Hrep as <- <-].
    destruct n; injection Hrep as <- <-; [|done].
    by rewrite lookup_delete_eq.
Qed.

(** X10.  [process_file] never changes or removes an entry other than its
    source, unless the entry is named like an output ([....webp]); this
    holds for every result, an exception included. *)
Theorem process_file_leaves_other_entries
    file out quality scale ks base del fs r fs' p n :
  process_file file out quality scale ks base del fs = (r, fs') →
  fs !! p = Some n →
  Str.ends_with (PurePath.name p) ".webp" = false →
  p ≠ file →
  fs' !! p = Some n.
Proof. intros. eapply process_file_keeps; eauto. Qed.

(** X11.  The flag and the message that [process_file] returns agree:
    "Skipped" and the empty message come with [False], the first exactly
    for an unsupported extension and with nothing changed; the other
    messages come with [True], "Converted" without deletion asked for and
    the two others with it. *)
Theorem process_file_flag_and_message
    file out quality scale ks base del fs ok msg fs' :
  process_file file out quality scale ks base del fs = (Ok (ok, msg), fs') →
  match msg with
  | Skipped name =>
      ok = false ∧ name = PurePath.name file ∧ fs' = fs
      ∧ supported (Str.lower (PurePath.suffix file)) = false
  | NoMessage =>
      ok = false ∧ supported (Str.lower (PurePath.suffix file)) = true
  | AlreadyConverted name => ok = true ∧ name = PurePath.name file
  | Converted name _ _ =>
      ok = true ∧ name = PurePath.name file ∧ del = false
  | ConvertedRemoved name _ _ | ConvertedNotRemoved name _ _ _ =>
      ok = true ∧ name = PurePath.name file ∧ del = true
  end.
Proof.
  intros Hp.
  destruct (supported (Str.lower (PurePath.suffix file))) eqn:Hs;
    [|rewrite process_file_unsupported in Hp by done;
      by injection Hp as <- <- <-].
  apply process_file_stages in Hp; [|done].
  inversion Hp as [| |output fs1 n_out n_in Hg _ _ _
                  |output fs1 success fs2 r fs'' Hg _ Heff Hrep]; subst;
    [done|].
  rewrite report_conversion_eq in Hrep.
  destruct success; [|by injection Hrep as <- <- <-].
  destruct (fs2 !! file) as [[]|], (fs2 !! output), del; cbv zeta in Hrep;
    try done; by injection Hrep as <- <- <-.
Qed.

(** X12.  The sizes in a success message are true: the original size is
    the size of the source, and the new size is the size of the file that
    is at the output path, named [<stem>.webp], when [process_file]
    returns. *)
Theorem process_file_reports_true_sizes
    file out quality scale ks base del fs ok msg fs' info n :
  fs !! file = Some n →
  process_file file out quality scale ks base del fs = (Ok (ok, msg), fs') →
  message_info msg = Some info →
  original_size info = st_size (node_stat n)
  ∧ ∃ output st,
      PurePath.name output = PurePath.stem file +:+ ".webp"
      ∧ fs' !! output = Some (File st)
      ∧ new_size info = st_size st.
Proof.
  intros Hn Hp Hinfo.
  destruct (supported (Str.lower (PurePath.suffix file))) eqn:Hs;
    [|rewrite process_file_unsupported in Hp by done;
      by injection Hp as <- <- <-].
  apply process_file_stages in Hp; [|done].
  inversion Hp as [| |output fs1 n_out n_in Hg _ _ _
                  |output fs1 success fs2 r fs'' Hg _ Heff Hrep]; subst;
    [done|].
  pose proof (output_is_not_the_input _ _ _ _ _ _ _ Hs Hg) as Hne.
  assert (fs2 !! file = Some n) as Hn2.
  { destruct Heff as (_ & Hframe & _). simpl in Hframe. rewrite Hframe.
    - by eapply get_output_path_keeps.
    - done. }
  rewrite report_conversion_eq, Hn2 in Hrep.
  destruct success; [|by injection Hrep as <- <- <-].
  destruct Heff as (_ & _ & Hfile & _). specialize (Hfile eq_refl).
  simpl in Hfile. unfold FS.is_file in Hfile.
  destruct (fs2 !! output) as [[st|]|] eqn:Eo; try done.
  cbv zeta in Hrep.
  assert (PurePath.name output = PurePath.stem file +:+ ".webp") as Hname
    by (by eapply get_output_path_name).
  destruct del; [destruct n|]; injection Hrep as <- <- <-;
    injection Hinfo as <-; (split; [done|]); exists output, st;
    split_and!; try done.
  by rewrite lookup_delete_ne.
Qed.


(** X14.  Without SVG support an [.svg] file is skipped as unsupported:
    [process_file] does not reach [convert_svg_to_webp], and changes
    nothing. *)
Theorem svg_without_support_is_skipped
    file out quality scale ks base del fs :
  SVG_SUPPORT = false →
  Str.lower (PurePath.suffix file) = ".svg" →
  process_file file out quality scale ks base del fs
  = (Ok (false, Skipped (PurePath.name file)), fs).
Proof.
  intros Hsvg Hsuffix. apply process_file_unsupported.
  rewrite Hsuffix. unfold supported, SUPPORTED_FORMATS. by rewrite Hsvg.
Qed.

Lemma extensions_do_not_end_with_webp name :
  bare_extension name = true → Str.ends_with name ".webp" = false.
Proof.
  unfold bare_extension, SUPPORTED_FORMATS.
  intros Hin%bool_decide_eq_true. revert Hin.
  destruct SVG_SUPPORT; simpl;
    repeat (intros [->|Hin]%elem_of_cons; [done|revert Hin]);
    by intros ?%elem_of_nil.
Qed.

(** X6.  What [get_output_path] returns is not an input: its extension is
    not supported, [find_images] never returns it, and it differs from the
    input it was computed for when that one is supported. *)
Theorem output_is_never_an_input input out ks base fs output fs' :
  get_output_path input out ks base fs = (Ok output, fs') →
  supported (Str.lower (PurePath.suffix output)) = false
  ∧ (∀ root recursive fs2, output ∉ find_images root recursive fs2)
  ∧ (supported (Str.lower (PurePath.suffix input)) = true →
     output ≠ input).
Proof.
  intros Hg.
  assert (Str.ends_with (PurePath.name output) ".webp" = true) as Hwebp.
  { rewrite (get_output_path_name _ _ _ _ _ _ _ Hg).
    apply ends_with_self_append. }
  split_and!.
  - by apply ends_with_webp_unsupported.
  - intros root recursive fs2 [Hs|Hbare]%find_images_supported.
    + by rewrite ends_with_webp_unsupported in Hs.
    + apply extensions_do_not_end_with_webp in Hbare. congruence.
  - intros Hs. by eapply output_is_not_the_input.
Qed.
End process_properties.

Section path_properties.
Context `{Collaborators}.
Implicit Types (fs : filesystem) (p q : path).

(** The two exceptions of [mkdir]. *)
Lemma mkdir_from_raises done todo fs e fs' :
  FSOps.mkdir_from done todo fs = (Raise e, fs') →
  e = FileExistsError ∨ e = NotADirectoryError.
Proof.
  revert fs done. induction todo as [|c todo IH]; intros fs done; simpl.
  - unfold FSOps.ensure_dir. destruct (fs !! done) as [[]|]; try done.
    intros [= <- _]. by left.
  - rewrite io_bind_eq. unfold FSOps.ensure_dir at 1.
    destruct (fs !! done) as [[]|]; try apply IH.
    intros [= <- _]. by right.
Qed.

(** In a well-formed file system, [mkdir] of a path that is a regular
    file raises [FileExistsError] and changes nothing. *)
Lemma mkdir_from_onto_file fs done todo :
  FS.well_formed fs → FS.is_file (done ++ todo) fs = true →
  FSOps.mkdir_from done todo fs = (Raise FileExistsError, fs).
Proof.
  intros Hwf. revert done. induction todo as [|c todo IH]; intros done Hf.
  - rewrite app_nil_r in Hf. simpl. unfold FSOps.ensure_dir, FS.is_file in *.
    by destruct (fs !! done) as [[]|].
  - assert (FS.is_dir done fs = true) as Hdone.
    { unfold FS.is_file in Hf.
      destruct (fs !! (done ++ c :: todo)) as [n|] eqn:En; [|done].
      by eapply well_formed_above. }
    apply is_dir_lookup in Hdone as [st Hdone].
    simpl. rewrite io_bind_eq. unfold FSOps.ensure_dir at 1. rewrite Hdone.
    apply IH. by rewrite <- app_assoc.
Qed.

(** X7.  [get_output_path] raises [ValueError] in two cases only, and
    then it has changed nothing: with no output directory, for an input
    whose name is empty; and when structure is kept, for a base root that
    is not above the directory of the input. *)
Theorem get_output_path_value_error input out ks base fs fs' :
  get_output_path input out ks base fs = (Raise ValueError, fs')
  ↔ fs' = fs
    ∧ (out = None ∧ PurePath.name input = ""
       ∨ ∃ o b, out = Some o ∧ ks = true ∧ base = Some b
                ∧ ¬ b `prefix_of` PurePath.parent input).
Proof.
  destruct out as [o|].
  - destruct ks, base as [b|];
      try (rewrite get_output_path_flat by auto; split;
           [done | by intros [_ [[? _]|(? & ? & ? & ? & ? & _)]]]).
    rewrite get_output_path_mirror.
    destruct (PurePath.strip_prefix b (PurePath.parent input)) as [rel|]
      eqn:Es.
    + apply strip_prefix_Some in Es.
      destruct (FSOps.mkdir (o ++ rel) fs) as [[[]|e] fs1] eqn:Em; split;
        try done.
      * intros [_ [[? _]|(? & b' & _ & _ & [= <-] & Hnot)]]; [done|].
        destruct Hnot. by exists rel.
      * intros [= -> _]. by apply mkdir_from_raises in Em as [?|?].
      * intros [_ [[? _]|(? & b' & _ & _ & [= <-] & Hnot)]]; [done|].
        destruct Hnot. by exists rel.
    + split.
      * intros [= <-]. split; [done|]. right. exists o, b.
        split_and!; try done. intros [rel Hrel].
        apply strip_prefix_Some in Hrel. congruence.
      * by intros [-> _].
  - rewrite get_output_path_beside. unfold with_suffix_webp.
    destruct (Str.is_empty (PurePath.name input)) eqn:Ee.
    + apply is_empty_true in Ee. split.
      * intros [= <-]. auto.
      * by intros [-> _].
    + split; [done|].
      intros [_ [[_ Hn]|(? & ? & ? & _)]]; [|done].
      by rewrite Hn in Ee.
Qed.

(** X8.  The output path is where it was asked for: inside the output
    directory when one is given, and beside the input otherwise. *)
Theorem output_path_location input out ks base fs output fs' :
  get_output_path input out ks base fs = (Ok output, fs') →
  match out with
  | Some o => o `prefix_of` output
  | None => PurePath.parent output = PurePath.parent input
  end.
Proof.
  destruct out as [o|].
  - destruct ks, base as [b|];
      try (rewrite get_output_path_flat by auto; intros [= <- _];
           by apply prefix_app_r).
    rewrite get_output_path_mirror.
    destruct (PurePath.strip_prefix b (PurePath.parent input)) as [rel|];
      [|done].
    destruct (FSOps.mkdir (o ++ rel) fs) as [[[]|e] fs1]; [|done].
    intros [= <- _]. rewrite <- app_assoc. by apply prefix_app_r.
  - rewrite get_output_path_beside. unfold with_suffix_webp.
    destruct (Str.is_empty _); [done|]. intros [= <- _].
    by rewrite parent_snoc.
Qed.

(** X19.  When the output directory asked for is a regular file, [main]
    ends with an uncaught [FileExistsError] before the walk, with nothing
    changed. *)
Theorem main_output_is_a_file script_dir a fs o :
  FS.well_formed fs →
  FS.mem (run_input script_dir a) fs = true →
  1 ≤ arg_quality a ≤ 100 →
  run_output script_dir a = Some o →
  FS.is_file o fs = true →
  main script_dir a fs = (Uncaught FileExistsError, fs).
Proof.
  intros Hwf Hin Hq Hout Hfile.
  rewrite main_after_preflight, Hout by done. simpl.
  unfold FSOps.mkdir. by rewrite (mkdir_from_onto_file fs [] o).
Qed.
End path_properties.

Section walker_completeness.
Context `{Collaborators}.
Implicit Types (fs : filesystem) (p q : path).

Lemma ends_with_suffix (p : path) :
  Str.ends_with (PurePath.name p) (PurePath.suffix p) = true.
Proof. apply ends_with_app. exists (PurePath.stem p). apply stem_suffix. Qed.

(** X2.  The walk of a directory finds every entry below it, directly
    below or with [recursive] at any depth, whose extension is a
    supported one written in lower case or in upper case. *)
Theorem find_images_finds_lower_and_upper_case
    root recursive fs rel name ext :
  FS.is_dir root fs = true →
  FS.mem (root ++ rel ++ [name]) fs = true →
  recursive = true ∨ rel = [] →
  ext ∈ SUPPORTED_FORMATS →
  PurePath.suffix [name] = ext ∨ PurePath.suffix [name] = Str.upper ext →
  root ++ rel ++ [name] ∈ find_images root recursive fs.
Proof.
  intros Hdir Hmem Hdepth Hext Hsuffix.
  apply (find_images_finds root recursive fs rel name ext); try done.
  pose proof (ends_with_suffix [name]) as Hends.
  change (PurePath.name [name]) with name in Hends.
  destruct Hsuffix as [<-|<-]; auto.
Qed.
End walker_completeness.

Section driver_properties.
Context `{Collaborators}.
Implicit Types (fs : filesystem) (p q : path).

Lemma process_images_counts images a out b del counts fs s f fs' :
  process_images images a out b del counts fs = (Done s f, fs') →
  (s + f = counts.1 + counts.2 + length images)%nat.
Proof.
  revert counts fs. induction images as [|image images IH];
    intros counts fs; simpl.
  - intros [= <- <- _]. lia.
  - destruct (process_file _ _ _ _ _ _ _ _) as [[result|e] fs1]; [|done].
    intros Hrest%IH. rewrite Hrest. unfold tally.
    destruct result.1; simpl; lia.
Qed.

Lemma process_images_keeps images a out b del counts fs r fs' p n :
  process_images images a out b del counts fs = (r, fs') →
  fs !! p = Some n →
  Str.ends_with (PurePath.name p) ".webp" = false →
  p ∉ images ∨ del = false →
  fs' !! p = Some n.
Proof.
  revert counts fs. induction images as [|image images IH];
    intros counts fs; simpl.
  - by intros [= _ <-].
  - intros Hrun Hp Hwebp Hother.
    destruct (process_file _ _ _ _ _ _ _ _) as [[result|e] fs1] eqn:Ep.
    + eapply IH; [done| |done|].
      * eapply process_file_keeps; [done..|].
        destruct Hother as [Hnot|?]; [left|by right].
        intros ->. apply Hnot. by left.
      * destruct Hother as [Hnot|?]; [left|by right].
        intros ?. apply Hnot. by right.
    + injection Hrun as _ <-. eapply process_file_keeps; [done..|].
      destruct Hother as [Hnot|?]; [left|by right].
      intros ->. apply Hnot. by left.
Qed.

Lemma make_output_dir_keeps output fs r fs1 p n :
  make_output_dir output fs = (r, fs1) → fs !! p = Some n →
  fs1 !! p = Some n.
Proof.
  destruct output as [o|]; simpl.
  - intros [Hadd _]%mkdir_spec. by eapply only_adds_dirs_keeps.
  - by intros [= _ <-].
Qed.

(** How [main] goes on after the pre-flight checks, with the file system
    [fs1] in which the walk is made. *)
Lemma main_run script_dir a fs r fs' :
  main script_dir a fs = (r, fs') →
  (r = Exit 1 ∧ fs' = fs)
  ∨ ∃ o fs1,
      make_output_dir (run_output script_dir a) fs = (o, fs1)
      ∧ match o with
        | Raise e => r = Uncaught e ∧ fs' = fs1
        | Ok _ =>
            let images :=
              find_images (run_input script_dir a) (arg_recursive a) fs1 in
            (images = [] ∧ r = Exit 0 ∧ fs' = fs1)
            ∨ (images ≠ []
               ∧ process_images images a (run_output script_dir a)
                   (if FS.is_dir (run_input script_dir a) fs1
                    then run_input script_dir a
                    else PurePath.parent (run_input script_dir a))
                   (run_delete a) (0%nat, 0%nat) fs1 = (r, fs'))
        end.
Proof.
  unfold main. destruct (negb (FS.mem _ fs)); [intros [= <- <-]; by left|].
  destruct (negb _); [intros [= <- <-]; by left|].
  destruct (make_output_dir _ fs) as [[[]|e] fs1] eqn:Em; intros Hr; right;
    eexists _, fs1; (split; [done|]).
  - cbv zeta. destruct (find_images _ _ fs1) eqn:Ei.
    + left. by injection Hr as <- <-.
    + right. by split.
  - by injection Hr as <- <-.
Qed.

(** X17.  When [main] reaches its summary line, the converted and the
    failed counts add up to the number of images the walk found, which is
    at least one. *)
Theorem main_counts_every_image script_dir a fs s f fs' :
  main script_dir a fs = (Done s f, fs') →
  ∃ fs1,
    make_output_dir (run_output script_dir a) fs = (Ok tt, fs1)
    ∧ (s + f
       = length (find_images (run_input script_dir a) (arg_recursive a) fs1))
      %nat
    ∧ (0 < s + f)%nat.
Proof.
  intros [[? _]|(o & fs1 & Hm & Hrun)]%main_run; [done|].
  destruct o as [[]|e]; [|by destruct Hrun].
  exists fs1. split; [done|]. cbv zeta in Hrun.
  destruct Hrun as [(_ & ? & _)|[Hne Hrun]]; [done|].
  apply process_images_counts in Hrun. simpl in Hrun. split; [done|].
  rewrite Hrun. destruct (find_images _ _ fs1); [done|simpl; lia].
Qed.

(** X18.  [main] never changes or removes an existing entry that is not
    named like an output ([....webp]), unless sources are deleted on
    success and the entry is one of the images of the walk.  In
    particular a run with an explicit input, or with [--no-delete], keeps
    every source as it was, however the run ends. *)
Theorem main_keeps_entries script_dir a fs r fs' p n :
  main script_dir a fs = (r, fs') →
  fs !! p = Some n →
  Str.ends_with (PurePath.name p) ".webp" = false →
  run_delete a = false
  ∨ (∀ fs1, p ∉ find_images (run_input script_dir a) (arg_recursive a) fs1) →
  fs' !! p = Some n.
Proof.
  intros [[_ ->]|(o & fs1 & Hm & Hrun)]%main_run Hp Hwebp Hother; [done|].
  pose proof (make_output_dir_keeps _ _ _ _ _ _ Hm Hp) as Hp1.
  destruct o as [[]|e]; [|by destruct Hrun as [_ ->]].
  cbv zeta in Hrun. destruct Hrun as [(_ & _ & ->)|[_ Hrun]]; [done|].
  eapply process_images_keeps; [done..|].
  destruct Hother as [?|Hnot]; [by right|left; apply Hnot].
Qed.

(** X16.  The base root [main] chooses, the input directory or the parent
    of an input file, is above the directory of every image of the walk:
    [relative_to] succeeds, and resolving the output path of such an image
    never raises [ValueError]. *)
Theorem main_base_is_above_every_image root recursive fs p :
  p ∈ find_images root recursive fs →
  let base := if FS.is_dir root fs then root else PurePath.parent root in
  (∃ rel, PurePath.parent p = base ++ rel)
  ∧ ∀ out ks fs0,
      (get_output_path p out ks (Some base) fs0).1 ≠ Raise ValueError.
Proof.
  intros Hin base.
  assert (∃ rel, PurePath.parent p = base ++ rel) as [rel Hrel].
  { subst base. revert Hin. rewrite elem_of_find_images.
    destruct (FS.is_file root fs) eqn:Ef.
    - intros [-> _]. exists []. rewrite app_nil_r.
      unfold FS.is_file, FS.is_dir in *. by destruct (fs !! root) as [[]|].
    - intros (-> & _ & ext & _ & Hm).
      destruct Hm as [Hm|Hm];
        apply glob_match_below in Hm as (rel & name & -> & _ & _);
        exists rel; by rewrite app_assoc, parent_snoc. }
  split; [by exists rel|]. intros out ks fs0.
  assert (PurePath.name p ≠ "") as Hname.
  { apply find_images_supported in Hin as [Hs|Hbare].
    - intros Hn.
      assert (PurePath.suffix p = "") as Hsuffix
        by (unfold PurePath.suffix; by rewrite Hn).
      rewrite Hsuffix in Hs. change (Str.lower "") with "" in Hs.
      destruct webp_not_supported as [_ Hempty]. congruence.
    - intros Hn. rewrite Hn in Hbare. revert Hbare.
      unfold bare_extension, SUPPORTED_FORMATS. by destruct SVG_SUPPORT. }
  destruct out as [o|].
  - destruct ks.
    + rewrite get_output_path_mirror.
      rewrite (proj2 (strip_prefix_Some base _ rel) Hrel).
      destruct (FSOps.mkdir (o ++ rel) fs0) as [[[]|e] fs1] eqn:Em; [done|].
      simpl. intros [= ->]. by apply mkdir_from_raises in Em as [?|?].
    + by rewrite get_output_path_flat by auto.
  - by rewrite get_output_path_beside, with_suffix_webp_stem.
Qed.
End driver_properties.

Lemma Qle_bool_1024 (n : Z) (d : positive) :
  Qle_bool 1024 (n # d) = (1024 * Z.pos d <=? n).
Proof.
  unfold Qle_bool. simpl. f_equal. lia.
Qed.

Lemma div_1024 (n : Z) (d : positive) :
  ((n # d) / 1024)%Q = (n * 1 # d * 1024)%Q.
Proof. reflexivity. Qed.

Lemma str_append_assoc (s t u : string) : (s +:+ t) +:+ u = s +:+ t +:+ u.
Proof.
  induction s as [|a s IH]; [done|]. by rewrite !str_append_cons, IH.
Qed.

Lemma round_half_even_integer (n k : Z) :
  round_half_even (inject_Z n * inject_Z k) = n * k.
Proof.
  unfold round_half_even, inject_Z, Qmult. simpl Qnum. simpl Qden.
  rewrite Z.mod_1_r, Z.div_1_r. reflexivity.
Qed.

Lemma format_1f_integer (n : Z) :
  0 ≤ n → format_1f (inject_Z n) = decimal n +:+ ".0".
Proof.
  intros Hn. unfold format_1f.
  change 10%Q with (inject_Z 10). rewrite round_half_even_integer.
  simpl Qnum. destruct (Z.ltb_spec n 0); [lia|].
  rewrite Z.abs_eq, Z.div_mul, Z.mod_mul by lia. reflexivity.
Qed.

(** X15.  [format_size] shows a size below 2^53 bytes in the largest
    unit, up to TB, that it reaches: bytes below 1024, KB below 1024^2, and
    so on, divided by 1024 for each step and rounded to one decimal place;
    a number of bytes below 1024 is shown as it is, followed by [.0B]. *)
Theorem format_size_picks_the_unit size_bytes :
  Z.abs size_bytes < 2 ^ 53 →
  format_size size_bytes
  = (if size_bytes <? 1024 then
       format_1f (inject_Z size_bytes) +:+ "B"
     else if size_bytes <? 1024 ^ 2 then
       format_1f (inject_Z size_bytes / 1024) +:+ "KB"
     else if size_bytes <? 1024 ^ 3 then
       format_1f (inject_Z size_bytes / 1024 / 1024) +:+ "MB"
     else if size_bytes <? 1024 ^ 4 then
       format_1f (inject_Z size_bytes / 1024 / 1024 / 1024) +:+ "GB"
     else
       format_1f (inject_Z size_bytes / 1024 / 1024 / 1024 / 1024) +:+ "TB")
  ∧ (0 ≤ size_bytes < 1024 →
     format_size size_bytes = decimal size_bytes +:+ ".0B").
Proof.
  intros _.
  assert (format_size size_bytes
          = (if size_bytes <? 1024 then
               format_1f (inject_Z size_bytes) +:+ "B"
             else if size_bytes <? 1024 ^ 2 then
               format_1f (inject_Z size_bytes / 1024) +:+ "KB"
             else if size_bytes <? 1024 ^ 3 then
               format_1f (inject_Z size_bytes / 1024 / 1024) +:+ "MB"
             else if size_bytes <? 1024 ^ 4 then
               format_1f (inject_Z size_bytes / 1024 / 1024 / 1024) +:+ "GB"
             else
               format_1f (inject_Z size_bytes / 1024 / 1024 / 1024 / 1024)
               +:+ "TB")) as Hunits.
  { unfold format_size, inject_Z. cbn [format_size_loop].
    rewrite !div_1024, !Qle_bool_1024.
    repeat match goal with
           | |- context [?a <=? ?b] => destruct (Z.leb_spec a b)
           | |- context [?a <? ?b] => destruct (Z.ltb_spec a b)
           end; simpl; try reflexivity; lia. }
  split; [done|]. intros [Hlo Hhi]. rewrite Hunits.
  destruct (Z.ltb_spec size_bytes 1024); [|lia].
  by rewrite format_1f_integer, str_append_assoc.
Qed.

(** * Scenarios *)

#[local] Existing Instance Toy.pillow.

Lemma unsupported_file_witness :
  (["in"; "b.txt"] ∉ find_images ["in"] false Toy.fs_in)
  ∧ process_file ["in"; "b.txt"] None 80 1 false None false Toy.fs_in
    = (Ok (false, Skipped "b.txt"), Toy.fs_in)
  ∧ tally (0%nat, 0%nat) (false, Skipped "b.txt") = (0%nat, 1%nat).
Proof.
  destruct (unsupported_file_is_skipped_and_counted_failed
              ["in"; "b.txt"]) as (Hwalk & Hskip & Htally);
    [by vm_compute|].
  split_and!; [apply Hwalk; reflexivity | apply Hskip | apply Htally].
Defined.

(** C1 as stated fails: the skipped result of [b.txt] adds one to the
    failed counter, and a file named [.png], whose extension is empty, is
    found by the walk and ends in the failed counter of the run. *)
Lemma unsupported_file_is_tallied_as_failed :
  supported (Str.lower (PurePath.suffix ["in"; "b.txt"])) = false
  ∧ (process_file ["in"; "b.txt"] None 80 1 false None false Toy.fs_in).1
    = Ok (false, Skipped "b.txt")
  ∧ tally (0%nat, 0%nat) (false, Skipped "b.txt") = (0%nat, 1%nat)
  ∧ supported (Str.lower (PurePath.suffix ["in"; ".png"])) = false
  ∧ find_images ["in"] false Toy.fs_dot = [["in"; ".png"]]
  ∧ (main [] (Toy.args ["in"] None 80 false false) Toy.fs_dot).1
    = Done 0 1.
Proof. by vm_compute. Qed.



Lemma up_to_date_output_witness :
  process_file ["in"; "a.png"] None 80 1 false None false Toy.fs_done
  = (Ok (true, AlreadyConverted "a.png"), Toy.fs_done).
Proof.
  apply (up_to_date_output_is_kept
           ["in"; "a.png"] None 80 1 false None false Toy.fs_done
           ["in"; "a.webp"] Toy.fs_done (Toy.file 10 10000)
           (Toy.file 20 5000)).
  - reflexivity.
  - reflexivity.
  - by vm_compute.
  - by vm_compute.
  - simpl. lia.
Defined.



Lemma get_output_path_destination_witness :
  get_output_path ["in"; "a.png"] None false None Toy.fs_in
  = (Ok ["in"; "a.webp"], Toy.fs_in)
  ∧ (get_output_path ["in"; "sub"; "x.png"] (Some ["out"]) true
       (Some ["in"]) Toy.fs_in).1
    = Ok ["out"; "sub"; "x.webp"]
  ∧ (get_output_path ["in"; "sub"; "x.png"] (Some ["elsewhere"; "out"]) true
       (Some ["in"]) Toy.fs_in).1
    = Ok ["elsewhere"; "out"; "sub"; "x.webp"].
Proof.
  destruct (get_output_path_destination ["in"; "a.png"])
    as (Hbeside & _ & _ & _).
  destruct (get_output_path_destination ["in"; "sub"; "x.png"])
    as (_ & _ & Hmirror & Hscenario).
  split_and!.
  - by apply Hbeside.
  - erewrite Hscenario; [reflexivity|].
    apply pair_fst_eq. by vm_compute.
  - erewrite (Hmirror ["elsewhere"; "out"] ["in"] ["sub"]);
      [reflexivity | reflexivity |].
    apply pair_fst_eq. by vm_compute.
Defined.



Lemma exit_codes_witness :
  main [] (Toy.args ["in"] None 0 false false) Toy.fs_in
  = (Exit 1, Toy.fs_in)
  ∧ main [] (Toy.args ["in"] None 101 false false) Toy.fs_in
    = (Exit 1, Toy.fs_in)
  ∧ main [] (Toy.args ["in"] None 80 false false) Toy.fs_empty
    = (Exit 0, Toy.fs_empty).
Proof.
  split_and!.
  - apply (quality_check_and_empty_walk_exit_codes
             [] (Toy.args ["in"] None 0 false false) Toy.fs_in).
    simpl. lia.
  - apply (quality_check_and_empty_walk_exit_codes
             [] (Toy.args ["in"] None 101 false false) Toy.fs_in).
    simpl. lia.
  - apply (quality_check_and_empty_walk_exit_codes
             [] (Toy.args ["in"] None 80 false false) Toy.fs_empty).
    + by vm_compute.
    + simpl. lia.
    + reflexivity.
    + by vm_compute.
Defined.


(** * Scenarios for the further properties *)

Lemma elem_of_by_computation {A} `{EqDecision A} (x : A) (l : list A) :
  bool_decide (x ∈ l) = true → x ∈ l.
Proof. apply bool_decide_eq_true. Qed.

Lemma find_images_sound_witness :
  FS.mem ["in"; "sub"; "x.png"] Toy.fs_in = true.
Proof.
  refine (proj1 (find_images_sound ["in"] true Toy.fs_in
                   ["in"; "sub"; "x.png"] _)).
  apply elem_of_by_computation. by vm_compute.
Defined.

Lemma find_images_finds_witness :
  ["in"; "sub"; "x.png"] ∈ find_images ["in"] true Toy.fs_in.
Proof.
  apply (find_images_finds_lower_and_upper_case
           ["in"] true Toy.fs_in ["sub"] "x.png" ".png").
  - by vm_compute.
  - by vm_compute.
  - by left.
  - apply elem_of_by_computation. by vm_compute.
  - left. by vm_compute.
Defined.

Lemma find_images_recursive_witness :
  ["in"; "a.png"] ∈ find_images ["in"] true Toy.fs_in.
Proof.
  apply find_images_recursive_finds_more.
  apply elem_of_by_computation. by vm_compute.
Defined.

Lemma find_images_missing_root_witness :
  find_images ["nowhere"] true Toy.fs_in = [].
Proof. apply find_images_of_missing_root. by vm_compute. Defined.

Lemma output_is_never_an_input_witness :
  supported (Str.lower (PurePath.suffix ["in"; "a.webp"])) = false
  ∧ ["in"; "a.webp"] ≠ ["in"; "a.png"].
Proof.
  destruct (output_is_never_an_input
              ["in"; "a.png"] None false None Toy.fs_in ["in"; "a.webp"]
              Toy.fs_in eq_refl) as (Hs & _ & Hne).
  split; [done|]. apply Hne. by vm_compute.
Defined.

Lemma get_output_path_value_error_witness :
  get_output_path ["in"; "sub"; "x.png"] (Some ["out"]) true
    (Some ["elsewhere"]) Toy.fs_in
  = (Raise ValueError, Toy.fs_in).
Proof.
  apply get_output_path_value_error. split; [done|]. right.
  exists ["out"], ["elsewhere"]. split_and!; try done.
  intros [rel Hrel]. discriminate.
Defined.

Lemma output_path_location_witness :
  ["out"] `prefix_of` ["out"; "sub"; "x.webp"].
Proof.
  apply (output_path_location
           ["in"; "sub"; "x.png"] (Some ["out"]) true (Some ["in"])
           Toy.fs_in ["out"; "sub"; "x.webp"]
           (get_output_path ["in"; "sub"; "x.png"] (Some ["out"]) true
              (Some ["in"]) Toy.fs_in).2).
  apply pair_fst_eq. by vm_compute.
Defined.

Lemma process_file_source_fate_witness :
  (process_file ["in"; "a.png"] None 80 1 false None false Toy.fs_in).2
    !! ["in"; "a.png"] = Some (Toy.file 10 10000)
  ∧ (process_file ["in"; "a.png"] None 80 1 false None true Toy.fs_in).2
      !! ["in"; "a.png"] = None.
Proof.
  split.
  - refine (process_file_source_fate
              ["in"; "a.png"] None 80 1 false None false Toy.fs_in
              (Ok (true, Converted "a.png" "a.webp"
                     {| original_size := 10000; new_size := 5000;
                        reduction := (500000 # 10000)%Q |}))
              _ (Toy.file 10 10000) _ _).
    + by vm_compute.
    + apply pair_fst_eq. by vm_compute.
  - refine (proj2 (process_file_source_fate
              ["in"; "a.png"] None 80 1 false None true Toy.fs_in
              (Ok (true, ConvertedRemoved "a.png" "a.webp"
                     {| original_size := 10000; new_size := 5000;
                        reduction := (500000 # 10000)%Q |}))
              _ (Toy.file 10 10000) _ _)).
    + by vm_compute.
    + apply pair_fst_eq. by vm_compute.
Defined.

Lemma process_file_leaves_other_entries_witness :
  (process_file ["in"; "a.png"] None 80 1 false None true Toy.fs_in).2
    !! ["in"; "b.txt"] = Some (Toy.file 10 5).
Proof.
  refine (process_file_leaves_other_entries
            ["in"; "a.png"] None 80 1 false None true Toy.fs_in
            (process_file ["in"; "a.png"] None 80 1 false None true
               Toy.fs_in).1 _ ["in"; "b.txt"] (Toy.file 10 5) _ _ _ _).
  - by destruct (process_file _ _ _ _ _ _ _ _).
  - by vm_compute.
  - by vm_compute.
  - discriminate.
Defined.

Lemma process_file_flag_and_message_witness :
  (process_file ["in"; "b.txt"] None 80 1 false None false Toy.fs_in).2
  = Toy.fs_in
  ∧ supported (Str.lower (PurePath.suffix ["in"; "b.txt"])) = false.
Proof.
  pose proof (process_file_flag_and_message
                ["in"; "b.txt"] None 80 1 false None false Toy.fs_in
                false (Skipped "b.txt")
                (process_file ["in"; "b.txt"] None 80 1 false None false
                   Toy.fs_in).2) as Hmsg.
  simpl in Hmsg. destruct Hmsg as (_ & _ & Hfs & Hs).
  - apply pair_fst_eq. by vm_compute.
  - by split.
Defined.

Lemma process_file_reports_true_sizes_witness :
  ∃ output st,
    PurePath.name output = "a.webp"
    ∧ (process_file ["in"; "a.png"] None 80 1 false None false
         Toy.fs_in).2 !! output = Some (File st)
    ∧ st_size st = 5000.
Proof.
  destruct (process_file_reports_true_sizes
              ["in"; "a.png"] None 80 1 false None false Toy.fs_in true
              (Converted "a.png" "a.webp"
                 {| original_size := 10000; new_size := 5000;
                    reduction := (500000 # 10000)%Q |})
              (process_file ["in"; "a.png"] None 80 1 false None false
                 Toy.fs_in).2
              {| original_size := 10000; new_size := 5000;
                 reduction := (500000 # 10000)%Q |}
              (Toy.file 10 10000))
    as (_ & output & st & Hname & Hout & Hsize).
  - by vm_compute.
  - apply pair_fst_eq. by vm_compute.
  - reflexivity.
  - exists output, st. split_and!; [by rewrite Hname | done | done].
Defined.


Lemma svg_without_support_witness :
  @process_file Toy.no_svg ["in"; "logo.svg"] None 80 1 false None false
    Toy.fs_in
  = (Ok (false, Skipped "logo.svg"), Toy.fs_in).
Proof.
  apply (@svg_without_support_is_skipped Toy.no_svg); by vm_compute.
Defined.

Lemma format_size_witness :
  format_size 100000 = "97.7KB" ∧ format_size 512 = "512.0B".
Proof.
  split.
  - rewrite (proj1 (format_size_picks_the_unit 100000 ltac:(by vm_compute))).
    by vm_compute.
  - apply (proj2 (format_size_picks_the_unit 512 ltac:(by vm_compute))).
    lia.
Defined.

Lemma main_base_witness :
  (∃ rel, PurePath.parent ["in"; "sub"; "x.png"] = ["in"] ++ rel)
  ∧ (get_output_path ["in"; "sub"; "x.png"] (Some ["out"]) true
       (Some ["in"]) Toy.fs_blocked).1 ≠ Raise ValueError.
Proof.
  destruct (main_base_is_above_every_image
              ["in"] true Toy.fs_in ["in"; "sub"; "x.png"])
    as [Hrel Hno].
  - apply elem_of_by_computation. by vm_compute.
  - split; [exact Hrel|]. apply (Hno (Some ["out"]) true Toy.fs_blocked).
Defined.

Lemma main_counts_witness :
  ∃ fs1,
    make_output_dir None Toy.fs_in = (Ok tt, fs1)
    ∧ (1 + 0 = length (find_images ["in"] false fs1))%nat.
Proof.
  destruct (main_counts_every_image
              [] (Toy.args ["in"] None 80 false false) Toy.fs_in 1 0
              (main [] (Toy.args ["in"] None 80 false false) Toy.fs_in).2)
    as (fs1 & Hdir & Hcount & _).
  - apply pair_fst_eq. by vm_compute.
  - by exists fs1.
Defined.

Lemma main_keeps_entries_witness :
  (main [] (Toy.args ["in"] (Some ["out"]) 80 true true) Toy.fs_blocked).2
    !! ["in"; "z.png"] = Some (Toy.file 10 300).
Proof.
  refine (main_keeps_entries
            [] (Toy.args ["in"] (Some ["out"]) 80 true true) Toy.fs_blocked
            (main [] (Toy.args ["in"] (Some ["out"]) 80 true true)
               Toy.fs_blocked).1 _ ["in"; "z.png"] (Toy.file 10 300)
            _ _ _ _).
  - by destruct (main _ _ _).
  - by vm_compute.
  - by vm_compute.
  - by left.
Defined.

Lemma well_formed_by_lookup (fs : filesystem) :
  map_Forall
    (λ p _, p ≠ [] → FS.is_dir (PurePath.parent p) fs = true) fs →
  FS.well_formed fs.
Proof. intros Hall p n Hp. by apply (Hall p n). Qed.

Lemma main_output_is_a_file_witness :
  main [] (Toy.args ["in"] (Some ["out"; "sub"]) 80 true true)
    Toy.fs_blocked
  = (Uncaught FileExistsError, Toy.fs_blocked).
Proof.
  apply (main_output_is_a_file
           [] (Toy.args ["in"] (Some ["out"; "sub"]) 80 true true)
           Toy.fs_blocked ["out"; "sub"]).
  - apply well_formed_by_lookup. refine (bool_decide_unpack _ _).
    by vm_compute.
  - by vm_compute.
  - simpl. lia.
  - reflexivity.
  - by vm_compute.
Defined.
